(** * auth0-import: the import orchestration pipeline of [src/importer.js]

    A shallow embedding of the class [Auth0Importer]: credential
    acquisition and renewal timer, the authenticated API gateway, the
    connection validator, the per-file job submission with its polling
    loop, and the orchestrator [import].

    Modelling conventions.
    - A promise is a computation in the monad [M]: it threads the mutable
      part of the importer ([World]) and ends [Resolved], [Rejected] or,
      for the unbounded polling loop only, [OutOfFuel].  The world is
      kept on rejection, so what was sent before a failure stays visible.
    - Everything outside the process (glob, fs.statSync, the token
      endpoint, the Management API, the wall clock) is an [Env] of
      answers.  Remote answers are indexed by the number of calls issued
      before, so a job may answer 'pending' now and 'completed' later.
    - Every outward action is appended to the world's [trace].
    - The pipeline is a single chain of promises; the renewal timer is a
      piece of state ([tokenTimeout]) whose callback is [fireTokenTimeout].
      The timer is not fired in the middle of a chain.
    - The success callback of the token request, which sets the timer, is
      run with the request.  Inside [import] it runs when the token
      endpoint answers, after the globs have been issued and before the
      first call of the Management API.  Statements about the events of
      whole runs are therefore made on [pipeline], the events without
      those of the token renewal, whose place they leave open.
    - [Promise_all] settles its promises in list order.  Which of several
      failing globs fails first in time is not fixed by the code, so
      statements about such runs name the error of some failing pattern.
    - Logger calls do not influence control flow (the default logger is a
      no-op) and are left out.
    - JSON numbers that the code does arithmetic on (expires_in, file
      sizes) are integers [Z]. *)

From Stdlib Require Import String ZArith List Bool Lia.
Import ListNotations.
Local Open Scope string_scope.
Local Open Scope list_scope.
Local Open Scope Z_scope.

(** ** Constants *)

Definition MS_IN_SEC : Z := 1000.
Definition RENEW_INTERVAL : Z := 60.
Definition WAIT_INTERVAL : Z := 5 * 1000.
Definition AUTH0_JOB_STATUS_PENDING : string := "pending".
Definition MAX_FILE_SIZE : Z := 500000.
(** The literal of [getManagementToken]: the largest delay setTimeout
    accepts, 2^31 - 1 milliseconds. *)
Definition TIMEOUT_MAX : Z := 2147483647.

(** ** Data *)

Inductive Error : Type :=
| NoConnectionName                       (* 'You must specificy a connection name ...' *)
| ConnectionNotFound (name : string)     (* 'Connection ${name} was not found' *)
| NotDatabaseConnection (name : string)  (* 'Connection ${name} is not a database connection' *)
| NotEnabledForClient (name clientId : string)
| TypeError (what : string)              (* thrown by the runtime *)
| External (msg : string).               (* glob, fs, token endpoint, transport, JSON.parse *)

Inductive Result (A : Type) : Type :=
| Ok (a : A)
| Err (e : Error).
Arguments Ok {A} a.
Arguments Err {A} e.

(** One element of the connection listing. *)
Record Connection : Type := mkConnection {
  conn_id : string;
  conn_name : string;
  strategy : string;
  enabled_clients : list string
}.

(** The parsed job descriptor: [id] and [status] are what the pipeline
    reads, [job_payload] stands for the remaining fields (summary, ...). *)
Record Job : Type := mkJob {
  job_id : string;
  job_status : string;
  job_payload : string
}.

Definition ErrorRecord : Type := string.

(** Response of clientCredentialsGrant. *)
Record TokenResponse : Type := mkTokenResponse {
  access_token : string;
  expires_in : Z
}.

Record ConnectionRef : Type := mkConnectionRef {
  ref_id : string;
  ref_name : string
}.

Record FileResult : Type := mkFileResult {
  fr_name : string;
  fr_result : Job;
  fr_errors : list ErrorRecord
}.

Record RunStats : Type := mkRunStats {
  startTime : Z;
  connection : ConnectionRef;
  upsert : bool;
  email : bool;
  files : list FileResult;
  endTime : option Z
}.

(** The [options] argument of [import]; an absent property is [None]. *)
Record Options : Type := mkOptions {
  opt_connection : option string;
  opt_upsert : option bool;
  opt_email : option bool
}.

(** ** Requests and the environment *)

(** The four calls made through [callApi], by method and uri. *)
Inductive Request : Type :=
| GET_connections (name : string)                       (* GET connections?name= *)
| POST_users_imports (file connection_id upsert send_completion_email : string)
                                                        (* POST jobs/users-imports *)
| GET_job (id : string)                                 (* GET jobs/${id} *)
| GET_job_errors (id : string).                         (* GET jobs/${id}/errors *)

(** What a successful call yields once parsed.  The listing is requested
    with [json: true] and may be [null]; the others go through
    JSON.parse, whose failure is an [Err] answer. *)
Definition Response (r : Request) : Type :=
  match r with
  | GET_connections _ => option (list Connection)
  | POST_users_imports _ _ _ _ => Job
  | GET_job _ => Job
  | GET_job_errors _ => list ErrorRecord
  end.

Inductive Event : Type :=
| EvGrant                      (* authClient.clientCredentialsGrant(...) *)
| EvSetTimeout (delay : Z)     (* setTimeout(renew, delay) *)
| EvClearTimeout               (* clearTimeout(tokenTimeout) *)
| EvGlob (pattern : string)
| EvStat (file : string)
| EvRequest (r : Request)      (* rp(...) *)
| EvWait (ms : Z).             (* setTimeout(resolve, ms) of the polling loop *)

Record Env : Type := mkEnv {
  glob : string -> Result (list string);
  statSync_size : string -> Result Z;
  clientCredentialsGrant : nat -> Result TokenResponse;
  rp : nat -> forall r : Request, Result (Response r);
  Date_now : nat -> Z
}.

(** The mutable part of the importer ([privateState]) and the log.
    [tokenPromise] is [None] before the first token request and holds the
    settled value of the promise afterwards.  [tokenTimeout] is the timer
    handle: [Some delay] while the timer it names is scheduled, [None] when
    there is none, or it has fired or was cleared.  A run started without
    a scheduled timer never has two of them. *)
Record World : Type := mkWorld {
  tokenPromise : option (Result string);
  tokenTimeout : option Z;
  grants : nat;                (* clientCredentialsGrant calls so far *)
  requests : nat;              (* rp calls so far *)
  trace : list Event
}.

Definition initial : World := mkWorld None None 0 0 [].

(** ** The promise monad *)

Inductive Outcome (A : Type) : Type :=
| Resolved (a : A)
| Rejected (e : Error)
| OutOfFuel.
Arguments Resolved {A} a.
Arguments Rejected {A} e.
Arguments OutOfFuel {A}.

Definition M (A : Type) : Type := World -> Outcome A * World.

Definition resolve {A} (a : A) : M A := fun w => (Resolved a, w).
Definition reject {A} (e : Error) : M A := fun w => (Rejected e, w).

(** [promise.then(f)] *)
Definition bind {A B} (m : M A) (f : A -> M B) : M B :=
  fun w =>
    match m w with
    | (Resolved a, w') => f a w'
    | (Rejected e, w') => (Rejected e, w')
    | (OutOfFuel, w') => (OutOfFuel, w')
    end.

Declare Scope promise_scope.
Delimit Scope promise_scope with promise.
Notation "x <- c1 ;; c2" := (bind c1 (fun x => c2))
  (at level 61, c1 at next level, right associativity) : promise_scope.
Notation "c1 ;; c2" := (bind c1 (fun _ => c2))
  (at level 61, right associativity) : promise_scope.
Local Open Scope promise_scope.

Definition emit (e : Event) : M unit :=
  fun w => (Resolved tt,
            mkWorld (tokenPromise w) (tokenTimeout w) (grants w) (requests w)
                    (trace w ++ [e])).

Definition settle {A} (r : Result A) : M A :=
  match r with
  | Ok a => resolve a
  | Err e => reject e
  end.

(** Promise.all: every promise of the list is started; the result
    rejects with the first rejection in list order. *)
Fixpoint Promise_all {A} (ps : list (M A)) : M (list A) :=
  fun w =>
    match ps with
    | [] => (Resolved [], w)
    | p :: rest =>
        let (r, w1) := p w in
        let (rs, w2) := Promise_all rest w1 in
        (match r, rs with
         | Resolved a, Resolved l => Resolved (a :: l)
         | Resolved _, Rejected e => Rejected e
         | Resolved _, OutOfFuel => OutOfFuel
         | Rejected e, _ => Rejected e
         | OutOfFuel, _ => OutOfFuel
         end, w2)
    end.

(** Array.prototype.filter with a predicate that may throw. *)
Fixpoint filterM {A} (p : A -> M bool) (l : list A) : M (list A) :=
  match l with
  | [] => resolve []
  | x :: rest =>
      keep <- p x ;;
      kept <- filterM p rest ;;
      resolve (if keep then x :: kept else kept)
  end.

(** Array.prototype.indexOf on strings: first position or -1. *)
Fixpoint indexOf (l : list string) (x : string) : Z :=
  match l with
  | [] => -1
  | y :: rest =>
      if String.eqb y x then 0
      else let i := indexOf rest x in if i <? 0 then -1 else i + 1
  end.

(** Boolean.prototype.toString *)
Definition toString (b : bool) : string := if b then "true" else "false".

(** [!!v] for an optional boolean property. *)
Definition truthy (v : option bool) : bool :=
  match v with Some b => b | None => false end.

(** ** The importer *)

Section Auth0Importer.

Variable env : Env.
Variable clientId : string.

(** [readFiles]: glob(filePattern, callback). *)
Definition readFiles (filePattern : string) : M (list string) :=
  emit (EvGlob filePattern) ;;
  settle (glob env filePattern).

(** [checkFileSize]: fs.statSync(fileName).size against MAX_FILE_SIZE;
    statSync may throw. *)
Definition checkFileSize (fileName : string) : M bool :=
  emit (EvStat fileName) ;;
  size <- settle (statSync_size env fileName) ;;
  if size >? MAX_FILE_SIZE then resolve false else resolve true.

(** [resetTokenTimeout]: clearTimeout(tokenTimeout). *)
Definition resetTokenTimeout : M unit :=
  fun w => (Resolved tt,
            mkWorld (tokenPromise w) None (grants w) (requests w)
                    (trace w ++ [EvClearTimeout])).

(** The delay handed to setTimeout. *)
Definition renewDelay (response : TokenResponse) : Z :=
  Z.min ((expires_in response - RENEW_INTERVAL) * MS_IN_SEC) TIMEOUT_MAX.

(** [getManagementToken]: replaces [tokenPromise] by the promise of a new
    grant; the timer is set in the success callback of the grant only. *)
Definition getManagementToken : M unit :=
  fun w =>
    let tr := trace w ++ [EvGrant] in
    match clientCredentialsGrant env (grants w) with
    | Ok response =>
        (Resolved tt,
         mkWorld (Some (Ok (access_token response)))
                 (Some (renewDelay response))
                 (S (grants w)) (requests w)
                 (tr ++ [EvSetTimeout (renewDelay response)]))
    | Err e =>
        (Resolved tt,
         mkWorld (Some (Err e)) (tokenTimeout w) (S (grants w)) (requests w) tr)
    end.

(** The callback of the renewal timer, run when a scheduled timer fires. *)
Definition fireTokenTimeout (w : World) : World :=
  match tokenTimeout w with
  | Some _ =>
      snd (getManagementToken
             (mkWorld (tokenPromise w) None (grants w) (requests w) (trace w)))
  | None => w
  end.

(** [callApi]: tokenPromise.then(token => rp(...)).  No request is sent
    when the token promise is rejected. *)
Definition callApi (options : Request) : M (Response options) :=
  fun w =>
    match tokenPromise w with
    | None => (Rejected (TypeError "tokenPromise is undefined"), w)
    | Some (Err e) => (Rejected e, w)
    | Some (Ok token) =>
        let w' := mkWorld (tokenPromise w) (tokenTimeout w) (grants w)
                          (S (requests w)) (trace w ++ [EvRequest options]) in
        match rp env (requests w) options with
        | Ok body => (Resolved body, w')
        | Err e => (Rejected e, w')
        end
    end.

(** new Date() *)
Definition now : M Z :=
  fun w => (Resolved (Date_now env (List.length (trace w))), w).

(** [getConnection]: the listing call, then the three checks in the
    order of the source. *)
Definition getConnection (name : string) (upsert email : option bool) : M RunStats :=
  connections <- callApi (GET_connections name) ;;
  match connections with
  | None | Some [] => reject (ConnectionNotFound name)
  | Some (c0 :: _) =>
      if negb (String.eqb (strategy c0) "auth0") then
        reject (NotDatabaseConnection name)
      else if indexOf (enabled_clients c0) clientId <? 0 then
        reject (NotEnabledForClient name clientId)
      else
        t <- now ;;
        resolve (mkRunStats t (mkConnectionRef (conn_id c0) (conn_name c0))
                            (truthy upsert) (truthy email) [] None)
  end.

(** stats.files.push(...) *)
Definition push (stats : RunStats) (f : FileResult) : RunStats :=
  mkRunStats (startTime stats) (connection stats) (upsert stats) (email stats)
             (files stats ++ [f]) (endTime stats).

(** [waitAndCheck]: the polling loop.  The source recurses through the
    promise chain without bound; [fuel] bounds the number of re-polls and
    [OutOfFuel] is the outcome of a loop cut short. *)
Fixpoint waitAndCheck (fuel : nat) (name : string) (stats : RunStats)
         (result : Job) : M RunStats :=
  if negb (String.eqb (job_status result) AUTH0_JOB_STATUS_PENDING) then
    errors <- callApi (GET_job_errors (job_id result)) ;;
    resolve (push stats (mkFileResult name result errors))
  else
    match fuel with
    | O => fun w => (OutOfFuel, w)
    | S fuel' =>
        emit (EvWait WAIT_INTERVAL) ;;
        next <- callApi (GET_job (job_id result)) ;;
        waitAndCheck fuel' name stats next
    end.

(** [postUserImport]: the step function of the reduce; [stats] is the one
    statistics object of the run, threaded through the chain. *)
Definition postUserImport (fuel : nat) (promise : M RunStats) (file : string)
  : M RunStats :=
  stats <- promise ;;
  job <- callApi (POST_users_imports file (ref_id (connection stats))
                                     (toString (upsert stats))
                                     (toString (email stats))) ;;
  waitAndCheck fuel file stats job.

(** Object.assign(results, { endTime: ... }) *)
Definition withEndTime (results : RunStats) (t : Z) : RunStats :=
  mkRunStats (startTime results) (connection results) (upsert results)
             (email results) (files results) (Some t).

(** [files || []] *)
Definition or_empty (files : option (list string)) : list string :=
  match files with
  | Some l => l
  | None => []
  end.

(** The expansion of the patterns: Promise.all over [readFiles], then the
    concatenating reduce. *)
Definition expand (patterns : list string) : M (list string) :=
  allFiles <- Promise_all (map readFiles patterns) ;;
  resolve (fold_left (fun f current => f ++ current) allFiles []).

(** [import].  The scan results.files.some(...) of the source only picks
    the log message and is left out with the logger. *)
Definition import (fuel : nat) (options : Options) (files : option (list string))
  : M RunStats :=
  let connection := opt_connection options in
  match connection with
  | None | Some EmptyString => reject NoConnectionName
  | Some connection =>
      getManagementToken ;;
      expanded <- expand (or_empty files) ;;
      admitted <- filterM checkFileSize expanded ;;
      results <- fold_left (postUserImport fuel) admitted
                   (getConnection connection (opt_upsert options)
                                  (opt_email options)) ;;
      resetTokenTimeout ;;
      t <- now ;;
      resolve (withEndTime results t)
  end.

End Auth0Importer.

(** ** Observations on traces and the loop form of the fold *)

(** The files for which a job submission was sent, in order. *)
Definition submitted (evs : list Event) : list string :=
  flat_map (fun e => match e with
                     | EvRequest (POST_users_imports file _ _ _) => [file]
                     | _ => []
                     end) evs.

(** Calls that leave the process for the remote service: the token
    endpoint and the Management API. *)
Definition is_network (e : Event) : bool :=
  match e with
  | EvGrant | EvRequest _ => true
  | _ => false
  end.

Definition network_calls (evs : list Event) : list Event :=
  filter is_network evs.

(** The polling events of one pending answer: the fixed delay, then the
    re-fetch of the job. *)
Definition repoll (j : Job) : list Event :=
  [EvWait WAIT_INTERVAL; EvRequest (GET_job (job_id j))].

(** The files a pattern matches, and the concatenation over a pattern list. *)
Definition matches (env : Env) (pattern : string) : list string :=
  match glob env pattern with
  | Ok l => l
  | Err _ => []
  end.

Definition expansion (env : Env) (patterns : list string) : list string :=
  flat_map (matches env) patterns.

(** The admission decision of [checkFileSize] on a readable file. *)
Definition admits (env : Env) (fileName : string) : bool :=
  match statSync_size env fileName with
  | Ok size => negb (size >? MAX_FILE_SIZE)
  | Err _ => false
  end.

(** The admitted files of a run: the expansion of its patterns, filtered. *)
Definition admitted (env : Env) (files : option (list string)) : list string :=
  filter (admits env) (expansion env (or_empty files)).

(** The checks of [getConnection] on the first listed connection. *)
Definition eligible (clientId : string) (c : Connection) : Prop :=
  strategy c = "auth0" /\ In clientId (enabled_clients c).

(** The body of [postUserImport] after its accumulator has resolved. *)
Definition submitOne (env : Env) (fuel : nat) (file : string) (stats : RunStats)
  : M RunStats :=
  job <- callApi env (POST_users_imports file (ref_id (connection stats))
                                         (toString (upsert stats))
                                         (toString (email stats))) ;;
  waitAndCheck env fuel file stats job.

(** The reduce over the admitted files as an explicit sequential loop. *)
Fixpoint submitAll (env : Env) (fuel : nat) (l : list string) (stats : RunStats)
  : M RunStats :=
  match l with
  | [] => resolve stats
  | file :: rest =>
      s <- submitOne env fuel file stats ;;
      submitAll env fuel rest s
  end.

(** The sequence of answers a polling loop receives: starting at call
    number [n] with descriptor [cur], each re-fetch of the current job
    answers the next descriptor of [later]. *)
Fixpoint answers (env : Env) (n : nat) (cur : Job) (later : list Job) : Prop :=
  match later with
  | [] => True
  | next :: rest =>
      rp env n (GET_job (job_id cur)) = Ok next /\ answers env (S n) next rest
  end.

Definition pending (j : Job) : Prop := job_status j = AUTH0_JOB_STATUS_PENDING.

(** What an operation may change: frames keep the credential state and
    send no job submission. *)
Definition frame (w w' : World) : Prop :=
  tokenPromise w' = tokenPromise w
  /\ tokenTimeout w' = tokenTimeout w
  /\ submitted (trace w') = submitted (trace w).

(** The world after some more events were recorded, all else unchanged. *)
Definition logged (w : World) (evs : list Event) : World :=
  mkWorld (tokenPromise w) (tokenTimeout w) (grants w) (requests w)
          (trace w ++ evs).

(** The job submissions sent between two worlds of one run. *)
Definition sent_between (w w' : World) (sent : list string) : Prop :=
  submitted (trace w') = submitted (trace w) ++ sent.

(** A remote service without transport or parse failures. *)
Definition answered (env : Env) : Prop :=
  forall n r, exists body, rp env n r = Ok body.

(** The status endpoint describes the job it was asked about. *)
Definition stable_ids (env : Env) : Prop :=
  forall n id j, rp env n (GET_job id) = Ok j -> job_id j = id.

(** Every job is reported in a terminal status within [bound] polls,
    whenever the polling starts. *)
Definition terminal_within (env : Env) (bound : nat) : Prop :=
  forall n id, exists k j,
    (k < bound)%nat /\ rp env (n + k) (GET_job id) = Ok j /\ ~ pending j.

(** An entry whose job ended and whose errors are the listing the
    service answered for that job. *)
Definition recorded (env : Env) (fr : FileResult) : Prop :=
  ~ pending (fr_result fr)
  /\ exists n, rp env n (GET_job_errors (job_id (fr_result fr)))
                = Ok (fr_errors fr).

(** ** A concrete remote service, used to run the model *)

Module Demo.

Definition users : Connection :=
  mkConnection "con_1" "Users" "auth0" ["other"; "client"].

Definition legacy : Connection :=
  mkConnection "con_0" "Users" "ad" ["client"].

(** A job answers 'completed' at even call numbers and 'pending' at odd
    ones; only the job of b.json reports record errors. *)
Definition rp (n : nat) (r : Request) : Result (Response r) :=
  match r with
  | GET_connections name =>
      if String.eqb name "Users" then Ok (Some [users])
      else if String.eqb name "Mixed" then Ok (Some [legacy; users])
      else Ok (Some [])
  | POST_users_imports file _ _ _ => Ok (mkJob ("job:" ++ file) "pending" "")
  | GET_job id =>
      Ok (mkJob id (if Nat.even n then "completed" else "pending") "")
  | GET_job_errors id =>
      Ok (if String.eqb id "job:b.json" then ["e1"; "e2"] else [])
  end.

Definition glob (pattern : string) : Result (list string) :=
  if String.eqb pattern "a*.json" then Ok ["a.json"]
  else if String.eqb pattern "*.json" then Ok ["a.json"; "b.json"; "big.json"]
  else if String.eqb pattern "b*.json" then Ok ["b.json"; "big.json"]
  else Ok [].

Definition size (file : string) : Result Z :=
  if String.eqb file "a.json" then Ok 100
  else if String.eqb file "b.json" then Ok 500000
  else Ok 500001.

Definition env : Env :=
  mkEnv glob size (fun _ => Ok (mkTokenResponse "tok" 120)) rp
        (fun n => Z.of_nat n).

Definition clientId : string := "client".

Definition options : Options := mkOptions (Some "Users") None (Some true).

(** The world after a token has been granted and one call answered. *)
Definition polling : World :=
  mkWorld (Some (Ok "tok")) (Some 60000) 1 1
          [EvGrant; EvSetTimeout 60000; EvRequest (GET_connections "Users")].

Definition stats0 : RunStats :=
  mkRunStats 3 (mkConnectionRef "con_1" "Users") false true [] None.

Definition waiting : Job := mkJob "job:a.json" "pending" "".
Definition done : Job := mkJob "job:a.json" "completed" "".

(** The same service, except that the listing of 'Mixed' stops after its
    first connection. *)
Definition rp_head (n : nat) (r : Request) : Result (Response r) :=
  match r with
  | GET_connections name =>
      if String.eqb name "Mixed" then Ok (Some [legacy])
      else rp n (GET_connections name)
  | POST_users_imports f c u s => rp n (POST_users_imports f c u s)
  | GET_job id => rp n (GET_job id)
  | GET_job_errors id => rp n (GET_job_errors id)
  end.

Definition env_head : Env :=
  mkEnv glob size (fun _ => Ok (mkTokenResponse "tok" 120)) rp_head
        (fun n => Z.of_nat n).

(** A run over two overlapping patterns, and its result. *)
Definition patterns : option (list string) := Some ["a*.json"; "*.json"].

Definition run : Outcome RunStats * World :=
  import env clientId 2 options patterns initial.

Definition run_stats : RunStats :=
  Eval vm_compute in
    match fst run with
    | Resolved s => s
    | _ => stats0
    end.

Definition run_world : World := Eval vm_compute in snd run.

(** A run against a connection name the service does not list. *)
Definition unlisted : Options := mkOptions (Some "Nope") None None.

Definition failed_run : Outcome RunStats * World :=
  import env clientId 2 unlisted (Some ["a*.json"]) initial.

End Demo.

(** ** Further observations on runs *)

(** The events of one job, from its submission to the fetch of its error
    listing: the submission, a delayed re-fetch per pending answer, the
    error fetch. *)
Definition job_block (connection_id upsert email file : string)
           (pend : list Job) (final : Job) : list Event :=
  EvRequest (POST_users_imports file connection_id upsert email)
  :: flat_map repoll pend ++ [EvRequest (GET_job_errors (job_id final))].

Definition is_job_block (connection_id upsert email file : string)
           (block : list Event) : Prop :=
  exists pend final,
    Forall pending pend /\ ~ pending final
    /\ block = job_block connection_id upsert email file pend final.

Definition is_request (e : Event) : bool :=
  match e with
  | EvRequest _ => true
  | _ => false
  end.

Definition is_listing (e : Event) : bool :=
  match e with
  | EvRequest (GET_connections _) => true
  | _ => false
  end.

(** The events of the job pipeline: submissions, delays, re-fetches and
    error fetches. *)
Definition is_job_event (e : Event) : bool :=
  match e with
  | EvWait _ => true
  | EvRequest (GET_connections _) => false
  | EvRequest _ => true
  | _ => false
  end.

(** The events of the token renewal: token requests and settings of the
    renewal timer.  Where they fall among the other events of a run
    depends on when the token endpoint answers. *)
Definition is_renewal (e : Event) : bool :=
  match e with
  | EvGrant | EvSetTimeout _ => true
  | _ => false
  end.

(** The events of a run apart from those of the token renewal. *)
Definition pipeline (evs : list Event) : list Event :=
  filter (fun e => negb (is_renewal e)) evs.

(** The world after the events [evs] of gateway calls and delays: the
    request counter advances by the number of requests among them. *)
Definition advanced (w : World) (evs : list Event) : World :=
  mkWorld (tokenPromise w) (tokenTimeout w) (grants w)
          (requests w + List.length (filter is_request evs))
          (trace w ++ evs).

(** The renewal timer firing [n] times in a row. *)
Fixpoint fireRepeatedly (env : Env) (n : nat) (w : World) : World :=
  match n with
  | O => w
  | S n' => fireRepeatedly env n' (fireTokenTimeout env w)
  end.

(** A clock that never runs backwards. *)
Definition monotone_clock (env : Env) : Prop :=
  forall m n, (m <= n)%nat -> Date_now env m <= Date_now env n.

(** A service on which every job stays 'pending'. *)
Definition stuck (env : Env) : Prop :=
  forall n id, exists j, rp env n (GET_job id) = Ok j /\ pending j.

(** The first error among the answers to a list of questions. *)
Fixpoint first_error {A B} (ask : A -> Result B) (l : list A) : option Error :=
  match l with
  | [] => None
  | x :: rest =>
      match ask x with
      | Err e => Some e
      | Ok _ => first_error ask rest
      end
  end.

(** The questions asked up to and including the first one that failed. *)
Fixpoint until_error {A B} (ask : A -> Result B) (l : list A) : list A :=
  match l with
  | [] => []
  | x :: rest =>
      match ask x with
      | Err _ => [x]
      | Ok _ => x :: until_error ask rest
      end
  end.

(** ** The command-line front end ([src/index.js]) *)

(** The part of the front end before the importer is built, and the
    figures it prints afterwards.  The parsed command line ([program]) and
    the content of the configuration file are records of optional values;
    an option not given on the command line is absent from [program].
    process.exit ends the process, so the first exit reached is the only
    one. *)
Module Cli.

(** The keys read from the configuration object. *)
Record Config : Type := mkConfig {
  auth0domain : option string;
  clientId : option string;
  clientSecret : option string;
  connectionName : option string;
  upsert : option bool;
  email : option bool;
  out : option string
}.

(** The parsed command line; there is no option for [email]. *)
Record Program : Type := mkProgram {
  configFile : option string;
  given_out : option string;
  given_auth0domain : option string;
  given_connectionName : option string;
  given_clientId : option string;
  given_clientSecret : option string;
  given_upsert : option bool;
  args : list string
}.

Inductive Message : Type :=
| MissingFiles            (* 'You must specify a file to import' *)
| MissingDomain           (* 'You must specify the Auth0 domain ...' *)
| MissingClientId         (* 'You must specify a client Id ...' *)
| MissingClientSecret     (* 'You must specify a client  secret ...' *)
| MissingConnectionName   (* 'You must specify a connection name ...' *)
| Thrown (e : Error).     (* e.toString() *)

Record Exit : Type := mkExit {
  code : Z;
  message : Message
}.

(** [!v] for an optional string: absent or empty. *)
Definition falsy (v : option string) : bool :=
  match v with
  | None => true
  | Some s => String.eqb s EmptyString
  end.

(** process.exit(exitCode || 0), after the message and the help. *)
Definition printHelpAndExit (exitCode : Z) (message : Message) : Exit :=
  mkExit (if exitCode =? 0 then 0 else exitCode) message.

Definition empty : Config := mkConfig None None None None None None None.

(** [readConfigFile]: without a path the empty object; else the parsed
    file, or the rejection with what readFileSync or JSON.parse threw. *)
Definition readConfigFile (readFile : string -> Result Config)
           (path : option string) : Result Config :=
  match path with
  | None => Ok empty
  | Some p => if String.eqb p EmptyString then Ok empty else readFile p
  end.

(** One key of Object.assign(config, program). *)
Definition assigned {A} (given : option A) (configured : option A) : option A :=
  match given with
  | Some v => Some v
  | None => configured
  end.

(** Object.assign(config, program) on the keys read later. *)
Definition assign (config : Config) (program : Program) : Config :=
  mkConfig (assigned (given_auth0domain program) (auth0domain config))
           (assigned (given_clientId program) (clientId config))
           (assigned (given_clientSecret program) (clientSecret config))
           (assigned (given_connectionName program) (connectionName config))
           (assigned (given_upsert program) (upsert config))
           (email config)
           (assigned (given_out program) (out config)).

(** config.clientSecret = process.env.AUTH0_CLIENT_SECRET || config.clientSecret *)
Definition withSecret (envSecret : option string) (config : Config) : Config :=
  mkConfig (auth0domain config) (clientId config)
           (if falsy envSecret then clientSecret config else envSecret)
           (connectionName config) (upsert config) (email config) (out config).

(** [validateConfig]: the first check that fails exits. *)
Definition validateConfig (program : Program) (config : Config) : option Exit :=
  match args program with
  | [] => Some (printHelpAndExit 2 MissingFiles)
  | _ :: _ =>
      if falsy (auth0domain config) then
        Some (printHelpAndExit 3 MissingDomain)
      else if falsy (clientId config) then
        Some (printHelpAndExit 4 MissingClientId)
      else if falsy (clientSecret config) then
        Some (printHelpAndExit 5 MissingClientSecret)
      else if falsy (connectionName config) then
        Some (printHelpAndExit 6 MissingConnectionName)
      else None
  end.

(** [run] up to the construction of the importer: the exit taken, or the
    configuration the importer is built and called with. *)
Definition configure (readFile : string -> Result Config)
           (envSecret : option string) (program : Program) : Exit + Config :=
  match readConfigFile readFile (configFile program) with
  | Err e => inl (printHelpAndExit (-1) (Thrown e))
  | Ok config =>
      let config := withSecret envSecret (assign config program) in
      match validateConfig program config with
      | Some exit => inl exit
      | None => inr config
      end
  end.

(** The options object and the patterns [run] hands to [import]. *)
Definition importOptions (config : Config) : Options :=
  mkOptions (connectionName config) (upsert config) (email config).

Definition importPatterns (program : Program) : option (list string) :=
  Some (args program).

(** result.summary of a job descriptor. *)
Record Summary : Type := mkSummary {
  inserted : Z;
  updated : Z;
  failed : Z
}.

Section Display.

(** The summary field of the descriptor, part of what [job_payload]
    stands for. *)
Variable summary : Job -> Summary.

(** The figures [displayResults] prints. *)
Definition failedFiles (results : RunStats) : list FileResult :=
  filter (fun f => failed (summary (fr_result f)) >? 0) (files results).

Definition usersInserted (results : RunStats) : Z :=
  fold_left (fun sum f => inserted (summary (fr_result f)) + sum)
            (files results) 0.

Definition usersUpdated (results : RunStats) : Z :=
  fold_left (fun sum f => updated (summary (fr_result f)) + sum)
            (files results) 0.

Definition usersFailed (results : RunStats) : Z :=
  fold_left (fun sum f => failed (summary (fr_result f)) + sum)
            (files results) 0.

Definition totalUsers (results : RunStats) : Z :=
  fold_left (fun sum f => inserted (summary (fr_result f))
                          + updated (summary (fr_result f))
                          + failed (summary (fr_result f)) + sum)
            (files results) 0.

Definition filesWithoutErrors (results : RunStats) : Z :=
  Z.of_nat (List.length (files results))
  - Z.of_nat (List.length (failedFiles results)).

Definition filesWithErrors (results : RunStats) : Z :=
  Z.of_nat (List.length (failedFiles results)).

(** The lines printed under 'Files with errors': name and number of
    error records. *)
Definition listedFailures (results : RunStats) : list (string * nat) :=
  map (fun f => (fr_name f, List.length (fr_errors f))) (failedFiles results).

End Display.

End Cli.

(** ** Further concrete services and command lines *)

Module Cases.

(** A file system with a pattern glob cannot read and a path that
    vanished before it was inspected. *)
Definition glob (pattern : string) : Result (list string) :=
  if String.eqb pattern "bad[" then Err (External "glob")
  else if String.eqb pattern "g*" then Ok ["a.json"; "gone.json"; "b.json"]
  else Demo.glob pattern.

Definition size (file : string) : Result Z :=
  if String.eqb file "gone.json" then Err (External "ENOENT")
  else Demo.size file.

Definition env_local : Env :=
  mkEnv glob size (fun _ => Ok (mkTokenResponse "tok" 120)) Demo.rp
        (fun n => Z.of_nat n).

(** A token endpoint that refuses the client. *)
Definition env_denied : Env :=
  mkEnv Demo.glob Demo.size (fun _ => Err (External "access_denied")) Demo.rp
        (fun n => Z.of_nat n).

(** A service on which jobs never leave 'pending'. *)
Definition rp_stuck (n : nat) (r : Request) : Result (Response r) :=
  match r with
  | GET_connections name => Demo.rp n (GET_connections name)
  | POST_users_imports f c u s => Demo.rp n (POST_users_imports f c u s)
  | GET_job id => Ok (mkJob id "pending" "")
  | GET_job_errors id => Demo.rp n (GET_job_errors id)
  end.

Definition env_stuck : Env :=
  mkEnv Demo.glob Demo.size (fun _ => Ok (mkTokenResponse "tok" 120)) rp_stuck
        (fun n => Z.of_nat n).

(** A service whose job endpoints are down. *)
Definition rp_down (n : nat) (r : Request) : Result (Response r) :=
  match r with
  | GET_connections name => Demo.rp n (GET_connections name)
  | POST_users_imports f c u s => Demo.rp n (POST_users_imports f c u s)
  | GET_job id => Err (External "ECONNRESET")
  | GET_job_errors id => Err (External "ECONNRESET")
  end.

Definition env_down : Env :=
  mkEnv Demo.glob Demo.size (fun _ => Ok (mkTokenResponse "tok" 120)) rp_down
        (fun n => Z.of_nat n).

(** A service that lists two database connections enabled for the client
    under the name 'Users', and under 'Later' a connection that fails the
    checks followed by one that passes them. *)
Definition second : Connection :=
  mkConnection "con_2" "Users" "auth0" ["client"].

Definition rp_two (n : nat) (r : Request) : Result (Response r) :=
  match r with
  | GET_connections name =>
      if String.eqb name "Users" then Ok (Some [Demo.users; second])
      else if String.eqb name "Later" then Ok (Some [Demo.legacy; second])
      else Ok (Some [])
  | POST_users_imports f c u s => Demo.rp n (POST_users_imports f c u s)
  | GET_job id => Demo.rp n (GET_job id)
  | GET_job_errors id => Demo.rp n (GET_job_errors id)
  end.

Definition env_two : Env :=
  mkEnv Demo.glob Demo.size (fun _ => Ok (mkTokenResponse "tok" 120)) rp_two
        (fun n => Z.of_nat n).

(** A configuration file, and a command line that names it and overrides
    the connection and the client id. *)
Definition file : Cli.Config :=
  Cli.mkConfig (Some "tenant.auth0.com") (Some "file-client")
               (Some "file-secret") (Some "Users") None (Some true) None.

Definition readFile (path : string) : Result Cli.Config :=
  if String.eqb path "config.json" then Ok file else Err (External "ENOENT").

Definition program : Cli.Program :=
  Cli.mkProgram (Some "config.json") None None (Some "Staff") (Some "client")
                None (Some true) ["a*.json"].

Definition config : Cli.Config :=
  Cli.mkConfig (Some "tenant.auth0.com") (Some "client") (Some "env-secret")
               (Some "Staff") (Some true) (Some true) None.

(** Summaries: the job of b.json failed for two users. *)
Definition summary (j : Job) : Cli.Summary :=
  if String.eqb (job_id j) "job:b.json" then Cli.mkSummary 1 0 2
  else Cli.mkSummary 3 1 0.

End Cases.

(** * Properties *)

(** ** The promise monad *)

Lemma bind_resolved_inv {A B} (m : M A) (f : A -> M B) w b w' :
  bind m f w = (Resolved b, w') ->
  exists a w1, m w = (Resolved a, w1) /\ f a w1 = (Resolved b, w').
Proof.
  unfold bind. destruct (m w) as [[a | e |] w1]; intros H; try discriminate.
  exists a, w1. split; [reflexivity | exact H].
Qed.

Lemma bind_inv {A B} (m : M A) (f : A -> M B) w out w' :
  bind m f w = (out, w') ->
  (exists a w1, m w = (Resolved a, w1) /\ f a w1 = (out, w'))
  \/ (exists e, m w = (Rejected e, w') /\ out = Rejected e)
  \/ (m w = (OutOfFuel, w') /\ out = OutOfFuel).
Proof.
  unfold bind. destruct (m w) as [[a | e |] w1]; intros H.
  - left. exists a, w1. split; [reflexivity | exact H].
  - right. left. exists e. inversion H; subst. split; reflexivity.
  - right. right. inversion H; subst. split; reflexivity.
Qed.

Lemma bind_assoc {A B C} (m : M A) (f : A -> M B) (g : B -> M C) w :
  bind (bind m f) g w = bind m (fun a => bind (f a) g) w.
Proof.
  unfold bind. destruct (m w) as [[a | e |] w1]; reflexivity.
Qed.

Lemma bind_step {A B} (m : M A) (f : A -> M B) w a w1 :
  m w = (Resolved a, w1) -> bind m f w = f a w1.
Proof. intros H. unfold bind. rewrite H. reflexivity. Qed.

(** ** Traces *)

Lemma submitted_app l1 l2 : submitted (l1 ++ l2) = submitted l1 ++ submitted l2.
Proof. unfold submitted. apply flat_map_app. Qed.

Lemma indexOf_In l x : (indexOf l x <? 0) = false <-> In x l.
Proof.
  induction l as [| y l IH]; simpl.
  - split; [discriminate | contradiction].
  - destruct (String.eqb_spec y x) as [-> | Hne].
    + split; [intros _; left; reflexivity | reflexivity].
    + destruct (indexOf l x <? 0) eqn:E.
      * split; [discriminate |].
        intros [H | H]; [contradiction |].
        apply IH in H. discriminate.
      * split; [intros _; right; apply IH; reflexivity |].
        intros _. apply Z.ltb_ge. apply Z.ltb_ge in E. lia.
Qed.

Lemma frame_refl w : frame w w.
Proof. repeat split. Qed.

Lemma frame_trans w1 w2 w3 : frame w1 w2 -> frame w2 w3 -> frame w1 w3.
Proof.
  intros (A1 & B1 & C1) (A2 & B2 & C2).
  repeat split; congruence.
Qed.

Lemma emit_frame e w :
  (forall f c u s, e <> EvRequest (POST_users_imports f c u s)) ->
  frame w (snd (emit e w)).
Proof.
  intros Hne. repeat split; simpl.
  rewrite submitted_app. simpl.
  destruct e as [| | | | | r |]; simpl; try apply app_nil_r.
  destruct r; simpl; try apply app_nil_r.
  exfalso. eapply Hne. reflexivity.
Qed.

(** ** The gateway and the polling loop *)

Section Pipeline.

Variable env : Env.
Variable clientId : string.

Lemma callApi_ok r w token body :
  tokenPromise w = Some (Ok token) ->
  rp env (requests w) r = Ok body ->
  callApi env r w =
    (Resolved body,
     mkWorld (tokenPromise w) (tokenTimeout w) (grants w) (S (requests w))
             (trace w ++ [EvRequest r])).
Proof.
  intros Htok Hrp. unfold callApi. rewrite Htok, Hrp. reflexivity.
Qed.

Lemma callApi_trace r w out w' :
  callApi env r w = (out, w') ->
  tokenPromise w' = tokenPromise w
  /\ tokenTimeout w' = tokenTimeout w
  /\ (w' = w \/ trace w' = trace w ++ [EvRequest r]).
Proof.
  unfold callApi.
  destruct (tokenPromise w) as [[token | e] |] eqn:Htok.
  - destruct (rp env (requests w) r); intros H; inversion H; subst; simpl;
      auto.
  - intros H; inversion H; subst; auto.
  - intros H; inversion H; subst; auto.
Qed.

Lemma callApi_resolved r w body w' :
  callApi env r w = (Resolved body, w') ->
  (exists token, tokenPromise w = Some (Ok token))
  /\ rp env (requests w) r = Ok body
  /\ w' = mkWorld (tokenPromise w) (tokenTimeout w) (grants w)
                  (S (requests w)) (trace w ++ [EvRequest r]).
Proof.
  unfold callApi.
  destruct (tokenPromise w) as [[token | e] |] eqn:Htok; try discriminate.
  destruct (rp env (requests w) r) as [b | e]; intros H; inversion H; subst.
  repeat split. exists token. reflexivity.
Qed.

Lemma callApi_frame r w out w' :
  (forall f c u s, r <> POST_users_imports f c u s) ->
  callApi env r w = (out, w') -> frame w w'.
Proof.
  intros Hne H. apply callApi_trace in H. destruct H as (A & B & [-> | C]).
  - apply frame_refl.
  - repeat split; trivial. rewrite C, submitted_app. simpl.
    destruct r; simpl; try apply app_nil_r.
    exfalso. eapply Hne. reflexivity.
Qed.

Lemma pending_dec (j : Job) : {pending j} + {~ pending j}.
Proof. unfold pending. apply string_dec. Qed.

Lemma waitAndCheck_terminal fuel name stats result :
  ~ pending result ->
  waitAndCheck env fuel name stats result =
    (errors <- callApi env (GET_job_errors (job_id result)) ;;
     resolve (push stats (mkFileResult name result errors))).
Proof.
  intros Hnp. apply String.eqb_neq in Hnp.
  destruct fuel; simpl; rewrite Hnp; reflexivity.
Qed.

Lemma waitAndCheck_pending fuel name stats result :
  pending result ->
  waitAndCheck env (S fuel) name stats result =
    (emit (EvWait WAIT_INTERVAL) ;;
     next <- callApi env (GET_job (job_id result)) ;;
     waitAndCheck env fuel name stats next).
Proof.
  intros Hp. apply String.eqb_eq in Hp. simpl. rewrite Hp. reflexivity.
Qed.

Lemma waitAndCheck_exhausted name stats result w :
  pending result ->
  waitAndCheck env 0 name stats result w = (OutOfFuel, w).
Proof.
  intros Hp. apply String.eqb_eq in Hp. simpl. rewrite Hp. reflexivity.
Qed.

Ltac gateway_frame Hc :=
  match type of Hc with
  | callApi _ ?r ?w = (?out, ?w') =>
      refine (callApi_frame r w out w' _ Hc); discriminate
  end.

Lemma waitAndCheck_frame fuel name stats :
  forall result w out w',
    waitAndCheck env fuel name stats result w = (out, w') ->
    frame w w'
    /\ forall s, out = Resolved s ->
         exists final errors, s = push stats (mkFileResult name final errors).
Proof.
  induction fuel as [| fuel IH]; intros result w out w' H;
    destruct (pending_dec result) as [Hp | Hnp].
  - rewrite waitAndCheck_exhausted in H by assumption.
    inversion H; subst. split; [apply frame_refl | discriminate].
  - rewrite waitAndCheck_terminal in H by assumption.
    apply bind_inv in H.
    destruct H as [(errors & w1 & Hc & Hr) | [(e & Hc & ->) | (Hc & ->)]].
    + inversion Hr; subst. split; [gateway_frame Hc |].
      intros s Hs. inversion Hs; subst. eauto.
    + split; [gateway_frame Hc | discriminate].
    + split; [gateway_frame Hc | discriminate].
  - rewrite waitAndCheck_pending in H by assumption.
    rewrite (bind_step (emit (EvWait WAIT_INTERVAL)) _ w tt
               (snd (emit (EvWait WAIT_INTERVAL) w)) eq_refl) in H.
    assert (F0 : frame w (snd (emit (EvWait WAIT_INTERVAL) w)))
      by (apply emit_frame; discriminate).
    apply bind_inv in H.
    destruct H as [(next & w1 & Hc & Hr) | [(e & Hc & ->) | (Hc & ->)]].
    + apply IH in Hr. destruct Hr as [F2 Hs]. split; [| exact Hs].
      eapply frame_trans; [exact F0 |].
      eapply frame_trans; [| exact F2]. gateway_frame Hc.
    + split; [| discriminate].
      eapply frame_trans; [exact F0 |]. gateway_frame Hc.
    + split; [| discriminate].
      eapply frame_trans; [exact F0 |]. gateway_frame Hc.
  - rewrite waitAndCheck_terminal in H by assumption.
    apply bind_inv in H.
    destruct H as [(errors & w1 & Hc & Hr) | [(e & Hc & ->) | (Hc & ->)]].
    + inversion Hr; subst. split; [gateway_frame Hc |].
      intros s Hs. inversion Hs; subst. eauto.
    + split; [gateway_frame Hc | discriminate].
    + split; [gateway_frame Hc | discriminate].
Qed.

Lemma answers_head (pend : list Job) (final : Job) :
  pend ++ [final] = hd final pend :: tl (pend ++ [final]).
Proof. destruct pend; reflexivity. Qed.

Lemma waitAndCheck_polling_run :
  forall (pend : list Job) (final : Job) (fuel : nat) (name : string)
         (stats : RunStats) (w : World) (token : string)
         (errors : list ErrorRecord),
    tokenPromise w = Some (Ok token) ->
    Forall pending pend ->
    ~ pending final ->
    answers env (requests w) (hd final pend) (tl (pend ++ [final])) ->
    rp env (requests w + List.length pend) (GET_job_errors (job_id final))
      = Ok errors ->
    (List.length pend <= fuel)%nat ->
    exists w',
      waitAndCheck env fuel name stats (hd final pend) w
        = (Resolved (push stats (mkFileResult name final errors)), w')
      /\ trace w' = trace w ++ flat_map repoll pend
                      ++ [EvRequest (GET_job_errors (job_id final))]
      /\ requests w' = S (requests w + List.length pend)
      /\ tokenPromise w' = tokenPromise w
      /\ tokenTimeout w' = tokenTimeout w
      /\ WAIT_INTERVAL = 5 * MS_IN_SEC.
Proof.
  induction pend as [| p pend IH];
    intros final fuel name stats w token errors Htok Hpend Hfinal Hans Herr Hfuel.
  - simpl in *. rewrite Nat.add_0_r in Herr.
    rewrite waitAndCheck_terminal by assumption.
    rewrite (bind_step _ _ _ _ _
               (callApi_ok (GET_job_errors (job_id final)) w token errors Htok Herr)).
    eexists. split; [reflexivity |]. simpl.
    rewrite Nat.add_0_r. repeat split.
  - inversion Hpend as [| ? ? Hp Hrest]; subst.
    destruct fuel as [| fuel]; [simpl in Hfuel; lia |].
    simpl in Hfuel. apply le_S_n in Hfuel.
    change (hd final (p :: pend)) with p in *.
    change (tl ((p :: pend) ++ [final])) with (pend ++ [final]) in Hans.
    rewrite answers_head in Hans. destruct Hans as [Hnext Hans].
    rewrite waitAndCheck_pending by assumption.
    rewrite (bind_step (emit (EvWait WAIT_INTERVAL)) _ w tt
               (snd (emit (EvWait WAIT_INTERVAL) w)) eq_refl).
    set (w0 := snd (emit (EvWait WAIT_INTERVAL) w)).
    assert (Htok0 : tokenPromise w0 = Some (Ok token)) by exact Htok.
    rewrite (bind_step _ _ _ _ _
               (callApi_ok (GET_job (job_id p)) w0 token _ Htok0 Hnext)).
    set (w1 := mkWorld (tokenPromise w0) (tokenTimeout w0) (grants w0)
                       (S (requests w0)) (trace w0 ++ [EvRequest (GET_job (job_id p))])).
    destruct (IH final fuel name stats w1 token errors) as (w' & Hrun & Htr & Hreq & Hp' & Ht' & Hc);
      try assumption.
    + simpl. simpl in Herr. rewrite <- Nat.add_succ_r. exact Herr.
    + exists w'. split; [exact Hrun |].
      split.
      * rewrite Htr. simpl. rewrite <- !app_assoc. reflexivity.
      * split; [rewrite Hreq; simpl; rewrite Nat.add_succ_r; reflexivity |].
        split; [rewrite Hp'; reflexivity |].
        split; [rewrite Ht'; reflexivity | exact Hc].
Qed.

(** C2 -- the polling rule.  Let the loop be entered with the first of the
    descriptors [pend ++ [final]], where every descriptor of [pend] is
    'pending', [final] is not, and each re-fetch answers the next
    descriptor.  Then, given fuel for [length pend] rounds, the loop waits
    WAIT_INTERVAL (5 seconds) and re-fetches the job once per pending
    descriptor, fetches the error listing of [final] exactly once, and
    resolves with the statistics it was given, unchanged but for their
    files, which are the former files followed by the single entry
    (name, final, errors).  For pending, pending, completed this is two
    delayed re-polls followed by one error fetch. *)
Theorem waitAndCheck_polling :
  forall (pend : list Job) (final : Job) (fuel : nat) (name : string)
         (stats : RunStats) (w : World) (token : string)
         (errors : list ErrorRecord),
    tokenPromise w = Some (Ok token) ->
    Forall pending pend ->
    ~ pending final ->
    answers env (requests w) (hd final pend) (tl (pend ++ [final])) ->
    rp env (requests w + List.length pend) (GET_job_errors (job_id final))
      = Ok errors ->
    (List.length pend <= fuel)%nat ->
    exists w',
      waitAndCheck env fuel name stats (hd final pend) w
        = (Resolved
             (mkRunStats (startTime stats) (connection stats) (upsert stats)
                         (email stats)
                         (files stats ++ [mkFileResult name final errors])
                         (endTime stats)),
           w')
      /\ trace w' = trace w ++ flat_map repoll pend
                      ++ [EvRequest (GET_job_errors (job_id final))]
      /\ List.length (filter (fun e => match e with
                                       | EvWait _ => true
                                       | _ => false
                                       end)
                             (flat_map repoll pend
                              ++ [EvRequest (GET_job_errors (job_id final))]))
         = List.length pend
      /\ requests w' = S (requests w + List.length pend)
      /\ tokenPromise w' = tokenPromise w
      /\ tokenTimeout w' = tokenTimeout w
      /\ WAIT_INTERVAL = 5 * MS_IN_SEC.
Proof.
  intros pend final fuel name stats w token errors
         Htok Hpend Hfinal Hans Herr Hfuel.
  destruct (waitAndCheck_polling_run pend final fuel name stats w token errors
              Htok Hpend Hfinal Hans Herr Hfuel)
    as (w' & Hrun & Htrace & Hreq & Hp & Ht & Hc).
  exists w'. split; [exact Hrun |]. split; [exact Htrace |].
  split; [| repeat split; assumption].
  clear. induction pend as [| p pend IH]; simpl; [reflexivity |].
  rewrite IH. reflexivity.
Qed.

(** ** The connection validator *)

Lemma getConnection_frame name upsert email w out w' :
  getConnection env clientId name upsert email w = (out, w') ->
  frame w w' /\ forall s, out = Resolved s -> files s = [].
Proof.
  unfold getConnection. intros H. apply bind_inv in H.
  destruct H as [(listing & w1 & Hc & Hr) | [(e & Hc & ->) | (Hc & ->)]].
  - assert (F : frame w w1) by gateway_frame Hc.
    destruct listing as [[| c rest] |];
      try (inversion Hr; subst; split; [exact F | discriminate]).
    destruct (negb (strategy c =? "auth0")%string);
      [inversion Hr; subst; split; [exact F | discriminate] |].
    destruct (indexOf (enabled_clients c) clientId <? 0);
      [inversion Hr; subst; split; [exact F | discriminate] |].
    inversion Hr; subst. split; [exact F |].
    intros s Hs. inversion Hs; subst. reflexivity.
  - split; [gateway_frame Hc | discriminate].
  - split; [gateway_frame Hc | discriminate].
Qed.

Lemma getConnection_accepts name upsert email w token c rest :
  tokenPromise w = Some (Ok token) ->
  rp env (requests w) (GET_connections name) = Ok (Some (c :: rest)) ->
  strategy c = "auth0" -> In clientId (enabled_clients c) ->
  getConnection env clientId name upsert email w =
    (Resolved (mkRunStats (Date_now env (S (List.length (trace w))))
                          (mkConnectionRef (conn_id c) (conn_name c))
                          (truthy upsert) (truthy email) [] None),
     mkWorld (tokenPromise w) (tokenTimeout w) (grants w) (S (requests w))
             (trace w ++ [EvRequest (GET_connections name)])).
Proof.
  intros Htok Hrp Hs Hin. unfold getConnection.
  rewrite (bind_step _ _ _ _ _
             (callApi_ok (GET_connections name) w token _ Htok Hrp)).
  apply String.eqb_eq in Hs. rewrite Hs. simpl.
  apply indexOf_In in Hin. rewrite Hin. unfold bind, now, resolve. simpl.
  rewrite length_app, Nat.add_1_r. reflexivity.
Qed.



(** ** The file resolver and the admission filter *)

Lemma logged_nil w : logged w [] = w.
Proof. destruct w. unfold logged. simpl. rewrite app_nil_r. reflexivity. Qed.

Lemma logged_logged w e1 e2 : logged (logged w e1) e2 = logged w (e1 ++ e2).
Proof. unfold logged. simpl. rewrite app_assoc. reflexivity. Qed.

Lemma logged_frame w evs : submitted evs = [] -> frame w (logged w evs).
Proof.
  intros H. repeat split. simpl. rewrite submitted_app, H. apply app_nil_r.
Qed.

Lemma submitted_globs pats : submitted (map EvGlob pats) = [].
Proof. induction pats; simpl; auto. Qed.

Lemma submitted_stats l : submitted (map EvStat l) = [].
Proof. induction l; simpl; auto. Qed.

Lemma readFiles_run pattern w :
  readFiles env pattern w =
    (match glob env pattern with
     | Ok l => Resolved l
     | Err e => Rejected e
     end, logged w [EvGlob pattern]).
Proof.
  unfold readFiles, bind, emit, settle. simpl.
  destruct (glob env pattern); reflexivity.
Qed.

Lemma Promise_all_readFiles_world pats :
  forall w,
    snd (Promise_all (map (readFiles env) pats) w) = logged w (map EvGlob pats).
Proof.
  induction pats as [| p pats IH]; intros w; simpl.
  - symmetry. apply logged_nil.
  - rewrite readFiles_run.
    specialize (IH (logged w [EvGlob p])).
    destruct (Promise_all (map (readFiles env) pats) (logged w [EvGlob p]))
      as [rs w2].
    simpl in *. rewrite IH. apply logged_logged.
Qed.

Lemma Promise_all_readFiles_resolved pats :
  forall w ls w',
    Promise_all (map (readFiles env) pats) w = (Resolved ls, w') ->
    ls = map (matches env) pats.
Proof.
  induction pats as [| p pats IH]; intros w ls w' H; simpl in H.
  - inversion H. reflexivity.
  - rewrite readFiles_run in H.
    destruct (Promise_all (map (readFiles env) pats) (logged w [EvGlob p]))
      as [rs w2] eqn:E.
    destruct (glob env p) as [l | e] eqn:G; [| discriminate].
    destruct rs as [ls' | e |]; try discriminate.
    inversion H; subst. apply IH in E. subst.
    simpl. f_equal. unfold matches. rewrite G. reflexivity.
Qed.

Lemma Promise_all_readFiles_ok pats :
  (forall p, In p pats -> exists l, glob env p = Ok l) ->
  forall w,
    fst (Promise_all (map (readFiles env) pats) w)
      = Resolved (map (matches env) pats).
Proof.
  induction pats as [| p pats IH]; intros Hok w; simpl.
  - reflexivity.
  - rewrite readFiles_run.
    assert (IH' := IH (fun q Hq => Hok q (or_intror Hq)) (logged w [EvGlob p])).
    destruct (Promise_all (map (readFiles env) pats) (logged w [EvGlob p]))
      as [rs w2].
    simpl in IH'. subst rs.
    destruct (Hok p (or_introl eq_refl)) as [l Hl]. rewrite Hl.
    simpl. do 2 f_equal. unfold matches. rewrite Hl. reflexivity.
Qed.

Lemma fold_left_concat (ls : list (list string)) :
  forall acc, fold_left (fun f current => f ++ current) ls acc = acc ++ concat ls.
Proof.
  induction ls as [| l ls IH]; intros acc; simpl.
  - symmetry. apply app_nil_r.
  - rewrite IH, app_assoc. reflexivity.
Qed.

Lemma expand_world pats w :
  snd (expand env pats w) = logged w (map EvGlob pats).
Proof.
  unfold expand, bind.
  pose proof (Promise_all_readFiles_world pats w) as H.
  destruct (Promise_all (map (readFiles env) pats) w) as [[ls | e |] w1];
    simpl in *; exact H.
Qed.

Lemma expand_resolved pats w l w' :
  expand env pats w = (Resolved l, w') -> l = expansion env pats.
Proof.
  unfold expand. intros H. apply bind_resolved_inv in H.
  destruct H as (ls & w1 & Hall & Hr).
  apply Promise_all_readFiles_resolved in Hall. subst ls.
  inversion Hr; subst.
  rewrite fold_left_concat. simpl. unfold expansion.
  symmetry. apply flat_map_concat_map.
Qed.

Lemma expand_ok pats w :
  (forall p, In p pats -> exists l, glob env p = Ok l) ->
  expand env pats w = (Resolved (expansion env pats), logged w (map EvGlob pats)).
Proof.
  intros Hok. rewrite <- expand_world.
  pose proof (Promise_all_readFiles_ok pats Hok w) as H.
  unfold expand, bind in *.
  destruct (Promise_all (map (readFiles env) pats) w) as [rs w1].
  simpl in H. subst rs. unfold resolve. simpl.
  rewrite fold_left_concat. simpl. unfold expansion.
  rewrite flat_map_concat_map. reflexivity.
Qed.

Lemma checkFileSize_run fileName w :
  checkFileSize env fileName w =
    (match statSync_size env fileName with
     | Ok size => Resolved (negb (size >? MAX_FILE_SIZE))
     | Err e => Rejected e
     end, logged w [EvStat fileName]).
Proof.
  unfold checkFileSize, bind, emit, settle. simpl.
  destruct (statSync_size env fileName) as [size | e]; [| reflexivity].
  unfold resolve. simpl. destruct (size >? MAX_FILE_SIZE); reflexivity.
Qed.

Lemma filterM_checkFileSize l :
  forall w out w',
    filterM (checkFileSize env) l w = (out, w') ->
    exists seen,
      w' = logged w (map EvStat seen)
      /\ forall kept, out = Resolved kept ->
           kept = filter (admits env) l /\ seen = l.
Proof.
  induction l as [| x l IH]; intros w out w' H; simpl in H.
  - inversion H; subst. exists []. split; [symmetry; apply logged_nil |].
    intros kept Hk. inversion Hk. split; reflexivity.
  - unfold bind at 1 in H. rewrite checkFileSize_run in H.
    unfold admits. simpl.
    destruct (statSync_size env x) as [size | e].
    + apply bind_inv in H.
      destruct H as [(kept & w1 & Hf & Hr) | [(e & Hf & ->) | (Hf & ->)]].
      * apply IH in Hf. destruct Hf as (seen & -> & Hk).
        inversion Hr; subst. exists (x :: seen). split.
        -- rewrite logged_logged. reflexivity.
        -- intros kept' Hk'. inversion Hk'; subst.
           destruct (Hk kept eq_refl) as [-> ->]. split; [| reflexivity].
           destruct (size >? MAX_FILE_SIZE); reflexivity.
      * apply IH in Hf. destruct Hf as (seen & -> & Hk).
        exists (x :: seen). split; [| discriminate].
        rewrite logged_logged. reflexivity.
      * apply IH in Hf. destruct Hf as (seen & -> & Hk).
        exists (x :: seen). split; [| discriminate].
        rewrite logged_logged. reflexivity.
    + inversion H; subst. exists [x]. split; [reflexivity | discriminate].
Qed.

Lemma filterM_checkFileSize_ok l :
  (forall f, In f l -> exists size, statSync_size env f = Ok size) ->
  forall w,
    filterM (checkFileSize env) l w
      = (Resolved (filter (admits env) l), logged w (map EvStat l)).
Proof.
  induction l as [| x l IH]; intros Hok w; simpl.
  - unfold resolve. rewrite logged_nil. reflexivity.
  - unfold bind at 1. rewrite checkFileSize_run.
    destruct (Hok x (or_introl eq_refl)) as [size Hs].
    unfold admits at 1. rewrite Hs.
    unfold bind. rewrite (IH (fun f Hf => Hok f (or_intror Hf))).
    unfold resolve. rewrite logged_logged. simpl.
    destruct (size >? MAX_FILE_SIZE); reflexivity.
Qed.

(** ** Submission and the sequential fold *)

Lemma postUserImport_fold fuel l :
  forall promise w,
    fold_left (postUserImport env fuel) l promise w
      = bind promise (submitAll env fuel l) w.
Proof.
  induction l as [| file l IH]; intros promise w; simpl.
  - unfold bind, resolve. destruct (promise w) as [[s | e |] w1]; reflexivity.
  - rewrite IH. unfold postUserImport.
    rewrite bind_assoc. reflexivity.
Qed.

Lemma submitAll_app fuel pre post :
  forall stats w,
    submitAll env fuel (pre ++ post) stats w
      = bind (submitAll env fuel pre stats) (submitAll env fuel post) w.
Proof.
  induction pre as [| file pre IH]; intros stats w; simpl.
  - reflexivity.
  - rewrite bind_assoc. unfold bind at 1.
    unfold bind at 1.
    destruct (submitOne env fuel file stats w) as [[s | e |] w1];
      [apply IH | reflexivity | reflexivity].
Qed.

Lemma submitOne_run fuel file stats w out w' :
  submitOne env fuel file stats w = (out, w') ->
  tokenPromise w' = tokenPromise w
  /\ tokenTimeout w' = tokenTimeout w
  /\ (submitted (trace w') = submitted (trace w)
      \/ submitted (trace w') = submitted (trace w) ++ [file])
  /\ forall s, out = Resolved s ->
       submitted (trace w') = submitted (trace w) ++ [file]
       /\ exists final errors, s = push stats (mkFileResult file final errors).
Proof.
  unfold submitOne. intros H. apply bind_inv in H.
  destruct H as [(job & w1 & Hc & Hr) | [(e & Hc & ->) | (Hc & ->)]].
  - apply callApi_resolved in Hc. destruct Hc as (_ & _ & ->).
    apply waitAndCheck_frame in Hr. destruct Hr as [(A2 & B2 & C2) Hs].
    simpl in *. rewrite submitted_app in C2. simpl in C2.
    repeat split; trivial.
    + right. exact C2.
    + apply Hs. assumption.
  - apply callApi_trace in Hc. destruct Hc as (A & B & C).
    repeat split; trivial; try discriminate.
    destruct C as [-> | C]; [left; reflexivity |].
    right. rewrite C, submitted_app. reflexivity.
  - apply callApi_trace in Hc. destruct Hc as (A & B & C).
    repeat split; trivial; try discriminate.
    destruct C as [-> | C]; [left; reflexivity |].
    right. rewrite C, submitted_app. reflexivity.
Qed.

Lemma submitAll_run fuel l :
  forall stats w out w',
    submitAll env fuel l stats w = (out, w') ->
    tokenPromise w' = tokenPromise w
    /\ tokenTimeout w' = tokenTimeout w
    /\ exists sent rest,
         l = sent ++ rest
         /\ submitted (trace w') = submitted (trace w) ++ sent
         /\ forall s, out = Resolved s ->
              sent = l
              /\ map fr_name (files s) = map fr_name (files stats) ++ l.
Proof.
  induction l as [| file l IH]; intros stats w out w' H; simpl in H.
  - inversion H; subst. split; [reflexivity |]. split; [reflexivity |].
    exists [], []. split; [reflexivity |]. split.
    + symmetry. apply app_nil_r.
    + intros r Hr. inversion Hr; subst. split; [reflexivity |].
      symmetry. apply app_nil_r.
  - apply bind_inv in H.
    destruct H as [(s1 & w1 & H1 & Hr) | [(e & H1 & ->) | (H1 & ->)]].
    + apply submitOne_run in H1. destruct H1 as (A & B & _ & Hs1).
      destruct (Hs1 s1 eq_refl) as (C & final & errors & ->).
      apply IH in Hr. destruct Hr as (A' & B' & sent & rest & -> & C' & Hs).
      split; [congruence |]. split; [congruence |].
      exists (file :: sent), rest. split; [reflexivity |]. split.
      * rewrite C', C, <- app_assoc. reflexivity.
      * intros s Hout. destruct (Hs s Hout) as [E1 E2].
        split; [congruence |].
        rewrite E2. simpl. rewrite map_app, <- app_assoc. reflexivity.
    + apply submitOne_run in H1. destruct H1 as (A & B & C & _).
      split; [exact A |]. split; [exact B |].
      destruct C as [C | C].
      * exists [], (file :: l). repeat split; try discriminate.
        rewrite C. symmetry. apply app_nil_r.
      * exists [file], l. repeat split; try discriminate. exact C.
    + apply submitOne_run in H1. destruct H1 as (A & B & C & _).
      split; [exact A |]. split; [exact B |].
      destruct C as [C | C].
      * exists [], (file :: l). repeat split; try discriminate.
        rewrite C. symmetry. apply app_nil_r.
      * exists [file], l. repeat split; try discriminate. exact C.
Qed.

(** ** The orchestrator *)

Lemma sent_between_frame w w' : frame w w' -> sent_between w w' [].
Proof.
  intros (_ & _ & C). unfold sent_between. rewrite C. symmetry. apply app_nil_r.
Qed.

Lemma sent_between_trans w1 w2 w3 a b :
  sent_between w1 w2 a -> sent_between w2 w3 b -> sent_between w1 w3 (a ++ b).
Proof.
  unfold sent_between. intros H1 H2. rewrite H2, H1. symmetry. apply app_assoc.
Qed.

Lemma sent_between_logged w evs :
  submitted evs = [] -> sent_between w (logged w evs) [].
Proof. intros H. apply sent_between_frame, logged_frame, H. Qed.

Lemma getManagementToken_resolved w :
  getManagementToken env w = (Resolved tt, snd (getManagementToken env w)).
Proof.
  unfold getManagementToken.
  destruct (clientCredentialsGrant env (grants w)); reflexivity.
Qed.

Lemma getManagementToken_sent w :
  sent_between w (snd (getManagementToken env w)) [].
Proof.
  unfold sent_between, getManagementToken.
  destruct (clientCredentialsGrant env (grants w)); simpl;
    rewrite ?submitted_app; simpl; rewrite ?app_nil_r; reflexivity.
Qed.

(** The last three steps of [import]: clear the timer, read the clock,
    attach the end time. *)
Lemma import_finish results w :
  (resetTokenTimeout ;; t <- now env ;; resolve (withEndTime results t)) w =
    (Resolved (withEndTime results (Date_now env (S (List.length (trace w))))),
     mkWorld (tokenPromise w) None (grants w) (requests w)
             (trace w ++ [EvClearTimeout])).
Proof.
  unfold bind, resetTokenTimeout, now, resolve. simpl.
  rewrite length_app, Nat.add_1_r. reflexivity.
Qed.

Lemma import_unnamed fuel options patterns w :
  opt_connection options = None \/ opt_connection options = Some EmptyString ->
  import env clientId fuel options patterns w = (Rejected NoConnectionName, w).
Proof.
  unfold import. intros [-> | ->]; reflexivity.
Qed.

Lemma import_named fuel options patterns name w :
  opt_connection options = Some name -> name <> EmptyString ->
  import env clientId fuel options patterns w =
    (expanded <- expand env (or_empty patterns) ;;
     kept <- filterM (checkFileSize env) expanded ;;
     results <- fold_left (postUserImport env fuel) kept
                  (getConnection env clientId name (opt_upsert options)
                                 (opt_email options)) ;;
     resetTokenTimeout ;;
     t <- now env ;;
     resolve (withEndTime results t))
      (snd (getManagementToken env w)).
Proof.
  intros Hc Hne. unfold import. rewrite Hc.
  destruct name as [| a name]; [contradiction |].
  rewrite (bind_step _ _ _ _ _ (getManagementToken_resolved w)). reflexivity.
Qed.

(** The stages of a run that resolves. *)
Lemma import_resolved_inv fuel options patterns name w stats w' :
  opt_connection options = Some name -> name <> EmptyString ->
  import env clientId fuel options patterns w = (Resolved stats, w') ->
  let w3 := logged (snd (getManagementToken env w))
                   (map EvGlob (or_empty patterns)
                    ++ map EvStat (expansion env (or_empty patterns))) in
  exists s0 w4 results w5,
    expand env (or_empty patterns) (snd (getManagementToken env w))
      = (Resolved (expansion env (or_empty patterns)),
         logged (snd (getManagementToken env w)) (map EvGlob (or_empty patterns)))
    /\ filterM (checkFileSize env) (expansion env (or_empty patterns))
         (logged (snd (getManagementToken env w)) (map EvGlob (or_empty patterns)))
       = (Resolved (admitted env patterns), w3)
    /\ getConnection env clientId name (opt_upsert options) (opt_email options) w3
       = (Resolved s0, w4)
    /\ submitAll env fuel (admitted env patterns) s0 w4 = (Resolved results, w5)
    /\ stats = withEndTime results (Date_now env (S (List.length (trace w5))))
    /\ w' = mkWorld (tokenPromise w5) None (grants w5) (requests w5)
                    (trace w5 ++ [EvClearTimeout]).
Proof.
  intros Hc Hne H. rewrite (import_named _ _ _ _ _ Hc Hne) in H.
  apply bind_resolved_inv in H. destruct H as (expanded & w2 & He & H).
  pose proof (expand_world (or_empty patterns) (snd (getManagementToken env w))) as Hw2.
  rewrite He in Hw2. simpl in Hw2. subst w2.
  pose proof (expand_resolved _ _ _ _ He) as ->.
  apply bind_resolved_inv in H. destruct H as (kept & w3 & Hf & H).
  pose proof (filterM_checkFileSize _ _ _ _ Hf) as (seen & -> & Hk).
  destruct (Hk kept eq_refl) as [-> ->]. rewrite logged_logged in *.
  apply bind_resolved_inv in H. destruct H as (results & w5 & Hfold & H).
  rewrite postUserImport_fold in Hfold.
  apply bind_resolved_inv in Hfold. destruct Hfold as (s0 & w4 & Hg & Hs).
  rewrite import_finish in H. inversion H; subst.
  exists s0, w4, results, w5. repeat split; assumption.
Qed.

Lemma fold_run fuel l name upsert email w out w' :
  fold_left (postUserImport env fuel) l
    (getConnection env clientId name upsert email) w = (out, w') ->
  exists sent rest,
    l = sent ++ rest
    /\ sent_between w w' sent
    /\ forall s, out = Resolved s -> sent = l /\ map fr_name (files s) = l.
Proof.
  rewrite postUserImport_fold. intros H. apply bind_inv in H.
  destruct H as [(s0 & w1 & Hg & Hs) | [(e & Hg & ->) | (Hg & ->)]].
  - apply getConnection_frame in Hg. destruct Hg as [F Hfiles].
    apply submitAll_run in Hs.
    destruct Hs as (_ & _ & sent & rest & -> & Hsent & Hres).
    exists sent, rest. split; [reflexivity |]. split.
    + apply (sent_between_trans _ _ _ [] sent (sent_between_frame _ _ F) Hsent).
    + intros s Hout. destruct (Hres s Hout) as [E1 E2].
      split; [exact E1 |]. rewrite E2, (Hfiles s0 eq_refl). reflexivity.
  - apply getConnection_frame in Hg. destruct Hg as [F _].
    exists [], l. split; [reflexivity |].
    split; [apply sent_between_frame, F | discriminate].
  - apply getConnection_frame in Hg. destruct Hg as [F _].
    exists [], l. split; [reflexivity |].
    split; [apply sent_between_frame, F | discriminate].
Qed.

(** Every run, whatever its outcome, submits a prefix of the admitted
    patterns and nothing else; a run that resolves has submitted them all,
    reports exactly them and has cleared the renewal timer. *)
Lemma import_run fuel options patterns w out w' :
  import env clientId fuel options patterns w = (out, w') ->
  exists sent rest,
    admitted env patterns = sent ++ rest
    /\ sent_between w w' sent
    /\ forall stats, out = Resolved stats ->
         sent = admitted env patterns
         /\ map fr_name (files stats) = sent
         /\ tokenTimeout w' = None.
Proof.
  intros H.
  assert (Hquiet : forall w2, sent_between w w2 [] ->
            (forall stats, out = Resolved stats -> False) ->
            w' = w2 ->
            exists sent rest,
              admitted env patterns = sent ++ rest
              /\ sent_between w w' sent
              /\ forall stats, out = Resolved stats ->
                   sent = admitted env patterns
                   /\ map fr_name (files stats) = sent
                   /\ tokenTimeout w' = None).
  { intros w2 Hs Hno ->. exists [], (admitted env patterns).
    split; [reflexivity |]. split; [exact Hs |].
    intros stats Hout. destruct (Hno stats Hout). }
  destruct (opt_connection options) as [name |] eqn:Hc.
  2:{ rewrite import_unnamed in H by (left; exact Hc).
      injection H as <- <-.
      apply (Hquiet w); [apply sent_between_frame, frame_refl | discriminate
                        | reflexivity]. }
  destruct (string_dec name EmptyString) as [-> | Hne].
  { rewrite import_unnamed in H by (right; exact Hc).
    injection H as <- <-.
    apply (Hquiet w); [apply sent_between_frame, frame_refl | discriminate
                      | reflexivity]. }
  rewrite (import_named _ _ _ _ _ Hc Hne) in H.
  set (w1 := snd (getManagementToken env w)) in *.
  assert (S1 : sent_between w w1 []) by apply getManagementToken_sent.
  pose proof (expand_world (or_empty patterns) w1) as Hw2.
  assert (S2 : sent_between w (logged w1 (map EvGlob (or_empty patterns))) []).
  { apply (sent_between_trans _ _ _ [] [] S1).
    apply sent_between_logged, submitted_globs. }
  apply bind_inv in H.
  destruct H as [(expanded & w2 & He & H) | [(e & He & ->) | (He & ->)]];
    rewrite He in Hw2; simpl in Hw2; subst;
    try (eapply Hquiet; [exact S2 | discriminate | reflexivity]).
  pose proof (expand_resolved _ _ _ _ He) as ->.
  set (w2 := logged w1 (map EvGlob (or_empty patterns))) in *.
  assert (S3 : forall seen, sent_between w (logged w2 (map EvStat seen)) []).
  { intros seen. apply (sent_between_trans _ _ _ [] [] S2).
    apply sent_between_logged, submitted_stats. }
  apply bind_inv in H.
  destruct H as [(kept & w3 & Hf & H) | [(e & Hf & ->) | (Hf & ->)]];
    destruct (filterM_checkFileSize _ _ _ _ Hf) as (seen & -> & Hk);
    try (eapply Hquiet; [apply S3 | discriminate | reflexivity]).
  destruct (Hk kept eq_refl) as [-> ->].
  fold (admitted env patterns) in H.
  apply bind_inv in H.
  destruct H as [(results & w5 & Hfold & H) | [(e & Hfold & ->) | (Hfold & ->)]];
    apply fold_run in Hfold;
    destruct Hfold as (sent & rest & Hsplit & Hsent & Hres).
  - rewrite import_finish in H. inversion H; subst.
    destruct (Hres results eq_refl) as [E1 E2].
    exists sent, rest. split; [exact Hsplit |]. split.
    + unfold sent_between in *. simpl.
      rewrite submitted_app. simpl. rewrite app_nil_r.
      rewrite Hsent. rewrite (S3 (expansion env (or_empty patterns))).
      rewrite app_nil_r. reflexivity.
    + intros stats Hout. inversion Hout; subst. simpl.
      repeat split; congruence.
  - exists sent, rest. split; [exact Hsplit |]. split; [| discriminate].
    apply (sent_between_trans _ _ _ [] sent (S3 _) Hsent).
  - exists sent, rest. split; [exact Hsplit |]. split; [| discriminate].
    apply (sent_between_trans _ _ _ [] sent (S3 _) Hsent).
Qed.

(** C3 -- the files of a run that resolves.  The statistics hold one entry
    per admitted file, named after the admitted files in admission order;
    the job submissions sent during the run are exactly the admitted files
    in that order, so every entry stands for one submitted job and no entry
    names a file that was not submitted.  At every intermediate point of
    the fold, that is after any prefix of the admitted files, the
    accumulator holds exactly the entries of that prefix, hence never more
    than the number of admitted files, and exactly that prefix has been
    submitted. *)
Theorem import_files_match_admitted :
  forall (fuel : nat) (options : Options) (patterns : option (list string))
         (w : World) (stats : RunStats) (w' : World),
    import env clientId fuel options patterns w = (Resolved stats, w') ->
    List.length (files stats) = List.length (admitted env patterns)
    /\ map fr_name (files stats) = admitted env patterns
    /\ submitted (trace w') = submitted (trace w) ++ admitted env patterns
    /\ exists name w3,
         opt_connection options = Some name
         /\ forall pre post,
              admitted env patterns = pre ++ post ->
              exists s w4,
                fold_left (postUserImport env fuel) pre
                  (getConnection env clientId name (opt_upsert options)
                                 (opt_email options)) w3
                  = (Resolved s, w4)
                /\ map fr_name (files s) = pre
                /\ (List.length (files s) <= List.length (admitted env patterns))%nat
                /\ submitted (trace w4) = submitted (trace w) ++ pre.
Proof.
  intros fuel options patterns w stats w' H.
  destruct (import_run _ _ _ _ _ _ H) as (sent & rest & _ & Hsent & Hres).
  destruct (Hres stats eq_refl) as (-> & Hnames & _).
  split; [rewrite <- Hnames; symmetry; apply length_map |].
  split; [exact Hnames |]. split; [exact Hsent |].
  destruct (opt_connection options) as [name |] eqn:Hc.
  2:{ rewrite import_unnamed in H by (left; exact Hc). discriminate. }
  destruct (string_dec name EmptyString) as [-> | Hne].
  { rewrite import_unnamed in H by (right; exact Hc). discriminate. }
  destruct (import_resolved_inv _ _ _ _ _ _ _ Hc Hne H)
    as (s0 & w4 & results & w5 & _ & _ & Hg & Hsub & _ & _).
  set (w3 := logged (snd (getManagementToken env w))
                    (map EvGlob (or_empty patterns)
                     ++ map EvStat (expansion env (or_empty patterns)))) in *.
  assert (S3 : sent_between w w3 []).
  { apply (sent_between_trans _ _ _ [] [] (getManagementToken_sent w)).
    apply sent_between_logged. rewrite submitted_app, submitted_globs.
    apply submitted_stats. }
  exists name, w3. split; [reflexivity |].
  intros pre post Hsplit. rewrite Hsplit, submitAll_app in Hsub.
  apply bind_resolved_inv in Hsub. destruct Hsub as (s1 & w6 & Hpre & _).
  assert (Hfold : fold_left (postUserImport env fuel) pre
                    (getConnection env clientId name (opt_upsert options)
                                   (opt_email options)) w3
                  = (Resolved s1, w6)).
  { rewrite postUserImport_fold, (bind_step _ _ _ _ _ Hg). exact Hpre. }
  exists s1, w6. split; [exact Hfold |].
  apply fold_run in Hfold.
  destruct Hfold as (sent & rest' & _ & Hbetween & Hres').
  destruct (Hres' s1 eq_refl) as [-> Hn].
  split; [exact Hn |]. split.
  - rewrite <- (length_map fr_name), Hn, <- Hnames, length_map.
    rewrite <- (length_map fr_name (files stats)), Hnames, Hsplit, length_app.
    lia.
  - apply (sent_between_trans _ _ _ [] pre S3 Hbetween).
Qed.

Lemma exceeds_limit size :
  size > MAX_FILE_SIZE -> (size >? MAX_FILE_SIZE) = true.
Proof.
  intros H. destruct (Z.gtb_spec size MAX_FILE_SIZE); [reflexivity | lia].
Qed.

Lemma within_limit size :
  size <= MAX_FILE_SIZE -> (size >? MAX_FILE_SIZE) = false.
Proof.
  intros H. destruct (Z.gtb_spec size MAX_FILE_SIZE); [lia | reflexivity].
Qed.

(** C8 -- the admission filter.  A file whose size exceeds MAX_FILE_SIZE
    (500000 bytes) is rejected by [checkFileSize]; no run, whatever its
    outcome, sends a job submission for it, and no run that resolves
    reports an entry for it.  A file of at most that size passes
    [checkFileSize], and a run that resolves with the file among its
    expanded paths has submitted it and reports it. *)
Theorem checkFileSize_admission :
  forall (fuel : nat) (options : Options) (patterns : option (list string))
         (w : World) (out : Outcome RunStats) (w' : World)
         (file : string) (size : Z),
    import env clientId fuel options patterns w = (out, w') ->
    statSync_size env file = Ok size ->
    MAX_FILE_SIZE = 500000
    /\ (size > MAX_FILE_SIZE ->
        (forall w0, fst (checkFileSize env file w0) = Resolved false)
        /\ (In file (submitted (trace w')) -> In file (submitted (trace w)))
        /\ forall stats, out = Resolved stats ->
             ~ In file (map fr_name (files stats)))
    /\ (size <= MAX_FILE_SIZE ->
        (forall w0, fst (checkFileSize env file w0) = Resolved true)
        /\ forall stats, out = Resolved stats ->
             In file (expansion env (or_empty patterns)) ->
             In file (submitted (trace w'))
             /\ In file (map fr_name (files stats))).
Proof.
  intros fuel options patterns w out w' file size H Hsize.
  destruct (import_run _ _ _ _ _ _ H) as (sent & rest & Hsplit & Hsent & Hres).
  split; [reflexivity |]. split.
  - intros Hbig.
    assert (Hadm : admits env file = false).
    { unfold admits. rewrite Hsize, (exceeds_limit _ Hbig). reflexivity. }
    assert (Hnot : ~ In file (admitted env patterns)).
    { unfold admitted. intros Hin. apply filter_In in Hin.
      destruct Hin as [_ Hin]. congruence. }
    split; [| split].
    + intros w0.
      rewrite checkFileSize_run, Hsize, (exceeds_limit _ Hbig). reflexivity.
    + rewrite Hsent. intros Hin. apply in_app_or in Hin.
      destruct Hin as [Hin | Hin]; [exact Hin |].
      exfalso. apply Hnot. rewrite Hsplit. apply in_or_app. left. exact Hin.
    + intros stats Hout. destruct (Hres stats Hout) as (E1 & E2 & _).
      rewrite E2, E1. exact Hnot.
  - intros Hsmall.
    assert (Hadm : admits env file = true).
    { unfold admits. rewrite Hsize, (within_limit _ Hsmall). reflexivity. }
    split.
    + intros w0.
      rewrite checkFileSize_run, Hsize, (within_limit _ Hsmall). reflexivity.
    + intros stats Hout Hin. destruct (Hres stats Hout) as (E1 & E2 & _).
      assert (Hin' : In file (admitted env patterns)).
      { unfold admitted. apply filter_In. split; assumption. }
      split.
      * rewrite Hsent, E1. apply in_or_app. right. exact Hin'.
      * rewrite E2, E1. exact Hin'.
Qed.

(** ** The credential manager *)

(** C9 -- the renewal delay.  After a successful token response the
    renewal timer is scheduled with the delay
    min ((expires_in - 60) * 1000, 2147483647) milliseconds: the delay never
    exceeds the largest timer duration, it is 60 seconds for
    expires_in = 120, it is (expires_in - 60) seconds whenever that fits,
    and it is the cap itself for larger lifetimes. *)
Theorem getManagementToken_renewal_delay :
  forall (w : World) (response : TokenResponse),
    clientCredentialsGrant env (grants w) = Ok response ->
    let w' := snd (getManagementToken env w) in
    let delay := Z.min ((expires_in response - 60) * 1000) 2147483647 in
    tokenTimeout w' = Some delay
    /\ trace w' = trace w ++ [EvGrant; EvSetTimeout delay]
    /\ tokenPromise w' = Some (Ok (access_token response))
    /\ delay <= TIMEOUT_MAX
    /\ (expires_in response = 120 -> delay = 60 * MS_IN_SEC)
    /\ ((expires_in response - 60) * 1000 <= 2147483647 ->
        delay = (expires_in response - RENEW_INTERVAL) * MS_IN_SEC)
    /\ ((expires_in response - 60) * 1000 >= 2147483647 ->
        delay = TIMEOUT_MAX).
Proof.
  intros w response Hgrant w' delay. subst w' delay.
  unfold getManagementToken. rewrite Hgrant. simpl.
  unfold renewDelay, RENEW_INTERVAL, MS_IN_SEC, TIMEOUT_MAX.
  rewrite <- app_assoc. simpl.
  repeat split; lia.
Qed.

(** ** The file resolver, as the code has it *)

Lemma count_occ_concat (ls : list (list string)) (f : string) :
  count_occ string_dec (concat ls) f
    = list_sum (map (fun l => count_occ string_dec l f) ls).
Proof.
  induction ls as [| l ls IH]; simpl; [reflexivity |].
  rewrite count_occ_app, IH. reflexivity.
Qed.

(** C5, as amended -- when every pattern expands without error, the
    resolver yields the match lists of the patterns concatenated in input
    order; a pattern without matches contributes nothing; nothing is
    removed: a path occurs in the result once for every match of it by a
    pattern, and a run that resolves has submitted every occurrence that
    passed the size filter. *)
Theorem expand_concatenates :
  forall (patterns : list string) (w : World),
    (forall p, In p patterns -> exists l, glob env p = Ok l) ->
    fst (expand env patterns w) = Resolved (concat (map (matches env) patterns))
    /\ (forall pre p post,
          patterns = pre ++ p :: post -> glob env p = Ok [] ->
          concat (map (matches env) patterns)
            = concat (map (matches env) (pre ++ post)))
    /\ (forall f,
          count_occ string_dec (concat (map (matches env) patterns)) f
            = list_sum (map (fun p => count_occ string_dec (matches env p) f)
                            patterns))
    /\ (forall fuel options stats w',
          import env clientId fuel options (Some patterns) w
            = (Resolved stats, w') ->
          submitted (trace w')
            = submitted (trace w)
              ++ filter (admits env) (concat (map (matches env) patterns))).
Proof.
  intros patterns w Hok. split; [| split; [| split]].
  - rewrite (expand_ok _ _ Hok). simpl. unfold expansion.
    rewrite flat_map_concat_map. reflexivity.
  - intros pre p post -> Hnone.
    rewrite !map_app, !concat_app. simpl.
    unfold matches at 2. rewrite Hnone. reflexivity.
  - intros f. rewrite count_occ_concat, map_map. reflexivity.
  - intros fuel options stats w' Hrun.
    destruct (import_run _ _ _ _ _ _ Hrun) as (sent & _ & _ & Hsent & Hres).
    destruct (Hres stats eq_refl) as (-> & _ & _).
    rewrite <- flat_map_concat_map. exact Hsent.
Qed.

(** ** Runs without patterns *)

Lemma import_no_patterns fuel options patterns name w :
  opt_connection options = Some name -> name <> EmptyString ->
  or_empty patterns = [] ->
  import env clientId fuel options patterns w =
    (results <- getConnection env clientId name (opt_upsert options)
                              (opt_email options) ;;
     resetTokenTimeout ;;
     t <- now env ;;
     resolve (withEndTime results t))
      (snd (getManagementToken env w)).
Proof.
  intros Hc Hne Hnil. rewrite (import_named _ _ _ _ _ Hc Hne), Hnil.
  unfold expand. simpl. unfold bind at 1. unfold bind at 1. simpl.
  unfold bind at 1. simpl. reflexivity.
Qed.

(** C1, as amended -- a run with a connection name and an empty or absent
    pattern list still contacts the remote service: it requests a token
    and, once the token is granted, issues exactly one connection-listing
    call.  It never submits a job.  When the token request fails the run
    rejects after that single call; otherwise the run either resolves with
    an empty files sequence, clearing the renewal timer, or rejects with
    the failure of the listing call or of the connection checks. *)
Theorem import_without_patterns :
  forall (fuel : nat) (options : Options) (name : string)
         (patterns : option (list string)) (w : World),
    opt_connection options = Some name -> name <> EmptyString ->
    or_empty patterns = [] ->
    let out := fst (import env clientId fuel options patterns w) in
    let w' := snd (import env clientId fuel options patterns w) in
    (forall e, clientCredentialsGrant env (grants w) = Err e ->
       out = Rejected e /\ trace w' = trace w ++ [EvGrant])
    /\ (forall response,
          clientCredentialsGrant env (grants w) = Ok response ->
          exists tail,
            trace w' = trace w
                       ++ [EvGrant; EvSetTimeout (renewDelay response);
                           EvRequest (GET_connections name)]
                       ++ tail
            /\ ((exists stats, out = Resolved stats /\ files stats = []
                               /\ tail = [EvClearTimeout])
                \/ (exists e, out = Rejected e /\ tail = []))).
Proof.
  intros fuel options name patterns w Hc Hne Hnil out w'. subst out w'.
  rewrite (import_no_patterns _ _ _ _ _ Hc Hne Hnil).
  split.
  - intros e Hgrant.
    unfold getManagementToken, getConnection, callApi, bind.
    rewrite Hgrant. simpl. split; reflexivity.
  - intros response Hgrant.
    unfold getManagementToken, getConnection, callApi, bind.
    rewrite Hgrant. simpl.
    assert (Htr : forall evs,
              ((trace w ++ [EvGrant]) ++ [EvSetTimeout (renewDelay response)])
                ++ evs
              = trace w ++ [EvGrant; EvSetTimeout (renewDelay response)] ++ evs).
    { intros evs. rewrite <- !app_assoc. reflexivity. }
    destruct (rp env (requests w) (GET_connections name))
      as [[[| c rest] |] | e]; simpl.
    + exists []. rewrite Htr. split; [reflexivity |]. right. eauto.
    + destruct (negb (strategy c =? "auth0")%string); simpl.
      * exists []. rewrite Htr. split; [reflexivity |]. right. eauto.
      * destruct (indexOf (enabled_clients c) clientId <? 0); simpl.
        -- exists []. rewrite Htr. split; [reflexivity |]. right. eauto.
        -- exists [EvClearTimeout]. rewrite <- app_assoc, Htr.
           split; [reflexivity |]. left. eexists. repeat split.
    + exists []. rewrite Htr. split; [reflexivity |]. right. eauto.
    + exists []. rewrite Htr. split; [reflexivity |]. right. eauto.
Qed.

(** ** Record errors are data *)

Lemma waitAndCheck_resolves name stats :
  answered env -> stable_ids env ->
  forall k fuel result w token,
    tokenPromise w = Some (Ok token) ->
    (k <= fuel)%nat ->
    (~ pending result
     \/ exists k' j, (k' < k)%nat
          /\ rp env (requests w + k') (GET_job (job_id result)) = Ok j
          /\ ~ pending j) ->
    exists final errors w',
      waitAndCheck env fuel name stats result w
        = (Resolved (push stats (mkFileResult name final errors)), w')
      /\ tokenPromise w' = tokenPromise w
      /\ recorded env (mkFileResult name final errors).
Proof.
  intros Hans Hids.
  assert (Hterm : forall fuel result w token,
            tokenPromise w = Some (Ok token) -> ~ pending result ->
            exists final errors w',
              waitAndCheck env fuel name stats result w
                = (Resolved (push stats (mkFileResult name final errors)), w')
              /\ tokenPromise w' = tokenPromise w
              /\ recorded env (mkFileResult name final errors)).
  { intros fuel result w token Htok Hnp.
    destruct (Hans (requests w) (GET_job_errors (job_id result))) as [errors He].
    exists result, errors. eexists.
    rewrite waitAndCheck_terminal by assumption.
    rewrite (bind_step _ _ _ _ _
               (callApi_ok (GET_job_errors (job_id result)) w token errors Htok He)).
    split; [reflexivity |]. split; [reflexivity |].
    split; [exact Hnp | exists (requests w); exact He]. }
  induction k as [| k IH]; intros fuel result w token Htok Hfuel Hend.
  - destruct Hend as [Hnp | (k' & j & Hlt & _)]; [| lia].
    eapply Hterm; eassumption.
  - destruct (pending_dec result) as [Hp | Hnp]; [| eapply Hterm; eassumption].
    destruct Hend as [Hnp | (k' & j & Hlt & Hj & Hnpj)]; [contradiction |].
    destruct fuel as [| fuel]; [lia |]. apply le_S_n in Hfuel.
    destruct (Hans (requests w) (GET_job (job_id result))) as [next Hnext].
    rewrite waitAndCheck_pending by assumption.
    rewrite (bind_step (emit (EvWait WAIT_INTERVAL)) _ w tt
               (snd (emit (EvWait WAIT_INTERVAL) w)) eq_refl).
    set (w0 := snd (emit (EvWait WAIT_INTERVAL) w)).
    assert (Htok0 : tokenPromise w0 = Some (Ok token)) by exact Htok.
    rewrite (bind_step _ _ _ _ _
               (callApi_ok (GET_job (job_id result)) w0 token next Htok0 Hnext)).
    match goal with
    | |- context [waitAndCheck env fuel name stats next ?w1] =>
        destruct (IH fuel next w1 token Htok Hfuel) as (final & errors & w' & Hrun & Ht & Hrec)
    end.
    + destruct k' as [| k'].
      * left. rewrite Nat.add_0_r in Hj.
        assert (j = next) by congruence. subst j. exact Hnpj.
      * right. exists k', j. split; [lia |]. split; [| exact Hnpj].
        rewrite (Hids _ _ _ Hnext). simpl.
        rewrite Nat.add_succ_r in Hj. exact Hj.
    + exists final, errors, w'. split; [exact Hrun |].
      split; [rewrite Ht; reflexivity | exact Hrec].
Qed.

Lemma submitAll_resolves fuel bound :
  answered env -> stable_ids env -> terminal_within env bound ->
  (bound <= fuel)%nat ->
  forall l stats w token,
    tokenPromise w = Some (Ok token) ->
    Forall (recorded env) (files stats) ->
    exists results w',
      submitAll env fuel l stats w = (Resolved results, w')
      /\ tokenPromise w' = tokenPromise w
      /\ Forall (recorded env) (files results).
Proof.
  intros Hans Hids Hterm Hfuel.
  induction l as [| file l IH]; intros stats w token Htok Hrec; simpl.
  - exists stats, w. repeat split. exact Hrec.
  - unfold submitOne.
    set (r := POST_users_imports file (ref_id (connection stats))
                (toString (upsert stats)) (toString (email stats))).
    destruct (Hans (requests w) r) as [job Hjob].
    rewrite bind_assoc.
    rewrite (bind_step _ _ _ _ _ (callApi_ok r w token job Htok Hjob)).
    match goal with
    | |- context [bind (waitAndCheck env fuel file stats job) _ ?w1] =>
        destruct (waitAndCheck_resolves file stats Hans Hids bound fuel job w1 token
                    Htok Hfuel)
          as (final & errors & w2 & Hrun & Ht & Hr)
    end.
    + right. destruct (Hterm (S (requests w)) (job_id job)) as (k & j & A & B & C).
      exists k, j. repeat split; assumption.
    + rewrite (bind_step _ _ _ _ _ Hrun).
      destruct (IH (push stats (mkFileResult file final errors)) w2 token)
        as (results & w' & Hall & Ht' & Hrec').
      * rewrite Ht. exact Htok.
      * simpl. apply Forall_app. split; [exact Hrec |].
        constructor; [exact Hr | constructor].
      * exists results, w'. split; [exact Hall |].
        split; [rewrite Ht', Ht; reflexivity | exact Hrec'].
Qed.

(** C7 -- record errors do not fail the run.  Let the token be granted,
    the patterns expand, the files be readable, the first listed
    connection pass the checks, the service answer every call, and every
    job reach a terminal status within [bound] polls.  Then, with fuel for
    [bound] polls, the run resolves: it reports one entry per admitted
    file, and each entry carries the error listing the service answered
    for its job, whatever that listing contains. *)
Theorem import_resolves_with_record_errors :
  forall (bound fuel : nat) (options : Options) (name : string)
         (patterns : option (list string)) (w : World)
         (response : TokenResponse) (c : Connection) (rest : list Connection),
    opt_connection options = Some name -> name <> EmptyString ->
    clientCredentialsGrant env (grants w) = Ok response ->
    (forall p, In p (or_empty patterns) -> exists l, glob env p = Ok l) ->
    (forall f, In f (expansion env (or_empty patterns)) ->
               exists size, statSync_size env f = Ok size) ->
    rp env (requests w) (GET_connections name) = Ok (Some (c :: rest)) ->
    eligible clientId c ->
    answered env -> stable_ids env -> terminal_within env bound ->
    (bound <= fuel)%nat ->
    exists stats w',
      import env clientId fuel options patterns w = (Resolved stats, w')
      /\ map fr_name (files stats) = admitted env patterns
      /\ Forall (recorded env) (files stats).
Proof.
  intros bound fuel options name patterns w response c rest
         Hc Hne Hgrant Hglob Hstat Hlist [Hstrategy Hclient]
         Hans Hids Hterm Hfuel.
  assert (Hrun : exists stats w',
             import env clientId fuel options patterns w = (Resolved stats, w')
             /\ Forall (recorded env) (files stats)).
  { rewrite (import_named _ _ _ _ _ Hc Hne).
    set (w1 := snd (getManagementToken env w)).
    assert (Htok1 : tokenPromise w1 = Some (Ok (access_token response))).
    { subst w1. unfold getManagementToken. rewrite Hgrant. reflexivity. }
    assert (Hreq1 : requests w1 = requests w).
    { subst w1. unfold getManagementToken. rewrite Hgrant. reflexivity. }
    rewrite (bind_step _ _ _ _ _ (expand_ok _ w1 Hglob)).
    rewrite (bind_step _ _ _ _ _ (filterM_checkFileSize_ok _ Hstat _)).
    rewrite logged_logged. fold (admitted env patterns).
    set (w3 := logged w1 _).
    assert (Htok3 : tokenPromise w3 = Some (Ok (access_token response)))
      by exact Htok1.
    assert (Hlist3 : rp env (requests w3) (GET_connections name)
                     = Ok (Some (c :: rest))).
    { change (requests w3) with (requests w1). rewrite Hreq1. exact Hlist. }
    pose proof (getConnection_accepts name (opt_upsert options)
                  (opt_email options) w3 _ c rest Htok3 Hlist3
                  Hstrategy Hclient) as Hg.
    match type of Hg with _ = (Resolved ?s, ?w) =>
      set (s0 := s) in *; set (w4 := w) in * end.
    destruct (getConnection_frame _ _ _ _ _ _ Hg) as [(Htok4 & _ & _) _].
    destruct (submitAll_resolves fuel bound Hans Hids Hterm Hfuel
                (admitted env patterns) s0 w4 (access_token response))
      as (results & w5 & Hall & _ & Hrec).
    - rewrite Htok4. exact Htok3.
    - constructor.
    - unfold bind at 1. rewrite postUserImport_fold.
      rewrite (bind_step _ _ _ _ _ Hg), Hall, import_finish.
      eexists. eexists. split; [reflexivity | exact Hrec]. }
  destruct Hrun as (stats & w' & Hrun & Hrec).
  exists stats, w'. split; [exact Hrun |]. split; [| exact Hrec].
  destruct (import_run _ _ _ _ _ _ Hrun) as (sent & _ & _ & _ & Hres).
  destruct (Hres stats eq_refl) as (-> & Hnames & _). exact Hnames.
Qed.

End Pipeline.

(** ** The listing beyond its first element *)

(** C10 -- only the first listed connection counts.  Let the listing for
    the name be [c :: rest], for any [rest].  When [c] is a database
    connection enabled for the client, [getConnection] resolves, and the
    connection it returns has the id and the name of [c]; when [c] is not
    a database connection it rejects with 'not a database connection', and
    when [c] is one that is not enabled for the client it rejects with 'not
    enabled for client': in both cases even if a connection of [rest]
    would pass every check.  In general a service whose listing starts
    with the same [c], whatever follows it, leads to the same outcome and
    the same world. *)
Theorem getConnection_first_only :
  forall (env : Env) (clientId name : string) (upsert email : option bool)
         (w : World) (token : string) (c : Connection)
         (rest : list Connection),
    tokenPromise w = Some (Ok token) ->
    rp env (requests w) (GET_connections name) = Ok (Some (c :: rest)) ->
    (eligible clientId c ->
       fst (getConnection env clientId name upsert email w)
         = Resolved
             (mkRunStats (Date_now env (S (List.length (trace w))))
                         (mkConnectionRef (conn_id c) (conn_name c))
                         (truthy upsert) (truthy email) [] None))
    /\ (strategy c <> "auth0" ->
          fst (getConnection env clientId name upsert email w)
            = Rejected (NotDatabaseConnection name))
    /\ (strategy c = "auth0" -> ~ In clientId (enabled_clients c) ->
          fst (getConnection env clientId name upsert email w)
            = Rejected (NotEnabledForClient name clientId))
    /\ (forall stats,
          fst (getConnection env clientId name upsert email w)
            = Resolved stats ->
          connection stats = mkConnectionRef (conn_id c) (conn_name c)
          /\ eligible clientId c)
    /\ (forall (env' : Env) (rest' : list Connection),
          rp env' (requests w) (GET_connections name)
            = Ok (Some (c :: rest')) ->
          Date_now env' (S (List.length (trace w)))
            = Date_now env (S (List.length (trace w))) ->
          getConnection env clientId name upsert email w
            = getConnection env' clientId name upsert email w).
Proof.
  intros env clientId name upsert email w token c rest Htok Hrp.
  assert (Hrun : forall (e : Env) (l : list Connection),
             rp e (requests w) (GET_connections name) = Ok (Some (c :: l)) ->
             getConnection e clientId name upsert email w
               = (if negb (String.eqb (strategy c) "auth0") then
                    Rejected (NotDatabaseConnection name)
                  else if indexOf (enabled_clients c) clientId <? 0 then
                    Rejected (NotEnabledForClient name clientId)
                  else
                    Resolved
                      (mkRunStats (Date_now e (S (List.length (trace w))))
                                  (mkConnectionRef (conn_id c) (conn_name c))
                                  (truthy upsert) (truthy email) [] None),
                  mkWorld (tokenPromise w) (tokenTimeout w) (grants w)
                          (S (requests w))
                          (trace w ++ [EvRequest (GET_connections name)]))).
  { intros e l He. unfold getConnection.
    rewrite (bind_step _ _ _ _ _
               (callApi_ok e (GET_connections name) w token _ Htok He)).
    destruct (negb (String.eqb (strategy c) "auth0")); [reflexivity |].
    destruct (indexOf (enabled_clients c) clientId <? 0); [reflexivity |].
    unfold bind, now, resolve. simpl.
    rewrite length_app, Nat.add_1_r. reflexivity. }
  rewrite (Hrun env rest Hrp). simpl.
  split; [| split; [| split; [| split]]].
  - intros [Hs Hin]. apply String.eqb_eq in Hs. rewrite Hs. simpl.
    apply indexOf_In in Hin. rewrite Hin. reflexivity.
  - intros Hs. apply String.eqb_neq in Hs. rewrite Hs. reflexivity.
  - intros Hs Hin. apply String.eqb_eq in Hs. rewrite Hs. simpl.
    destruct (indexOf (enabled_clients c) clientId <? 0) eqn:E;
      [reflexivity |].
    apply indexOf_In in E. contradiction.
  - intros stats.
    destruct (String.eqb_spec (strategy c) "auth0") as [Hs | Hs]; simpl;
      [| discriminate].
    destruct (indexOf (enabled_clients c) clientId <? 0) eqn:E;
      [discriminate |].
    intros Hr. inversion Hr; subst. simpl.
    split; [reflexivity |]. split; [exact Hs | apply indexOf_In, E].
  - intros env' rest' Hrp' Hdate.
    rewrite (Hrun env' rest' Hrp'), Hdate. reflexivity.
Qed.

(** ** Runs against the concrete service *)

Lemma Demo_answered : answered Demo.env.
Proof.
  intros n r. destruct r as [name | f c u e | id | id]; simpl.
  - destruct (String.eqb name "Users"); [eexists; reflexivity |].
    destruct (String.eqb name "Mixed"); eexists; reflexivity.
  - eexists; reflexivity.
  - eexists; reflexivity.
  - eexists; reflexivity.
Qed.

Lemma Demo_stable_ids : stable_ids Demo.env.
Proof.
  intros n id j H. simpl in H. injection H as <-. reflexivity.
Qed.

Lemma Demo_terminal_within : terminal_within Demo.env 2.
Proof.
  intros n id. destruct (Nat.even n) eqn:E.
  - exists 0%nat, (mkJob id "completed" "").
    split; [lia |]. split; [| discriminate].
    simpl. rewrite Nat.add_0_r, E. reflexivity.
  - exists 1%nat, (mkJob id "completed" "").
    split; [lia |]. split; [| discriminate].
    simpl. rewrite Nat.add_1_r, Nat.even_succ, <- Nat.negb_even, E. reflexivity.
Qed.

Lemma Demo_globs patterns :
  forall p, In p patterns -> exists l, glob Demo.env p = Ok l.
Proof.
  intros p _. simpl. unfold Demo.glob.
  destruct (String.eqb p "a*.json"); [eexists; reflexivity |].
  destruct (String.eqb p "*.json"); [eexists; reflexivity |].
  destruct (String.eqb p "b*.json"); eexists; reflexivity.
Qed.

Lemma Demo_sizes files :
  forall f, In f files -> exists size, statSync_size Demo.env f = Ok size.
Proof.
  intros f _. simpl. unfold Demo.size.
  destruct (String.eqb f "a.json"); [eexists; reflexivity |].
  destruct (String.eqb f "b.json"); eexists; reflexivity.
Qed.

Lemma Demo_run :
  import Demo.env Demo.clientId 2 Demo.options Demo.patterns initial
    = (Resolved Demo.run_stats, Demo.run_world).
Proof. vm_compute. reflexivity. Qed.

(** C1, refuted as stated -- with a connection name and an empty pattern
    list the run does contact the remote service: it requests a token and
    lists the connections; and it need not resolve: against an unlisted
    connection name it rejects. *)
Lemma import_empty_patterns_contacts_remote :
  network_calls
    (trace (snd (import Demo.env Demo.clientId 0 Demo.options (Some []) initial)))
    = [EvGrant; EvRequest (GET_connections "Users")]
  /\ network_calls
       (trace (snd (import Demo.env Demo.clientId 0 Demo.options (Some [])
                           initial))) <> []
  /\ fst (import Demo.env Demo.clientId 0 Demo.unlisted (Some []) initial)
     = Rejected (ConnectionNotFound "Nope").
Proof.
  split; [vm_compute; reflexivity |].
  split; [vm_compute; discriminate | vm_compute; reflexivity].
Qed.

(** C4, at a failing input -- the listing for the name is empty, the run
    rejects with 'not found', and the renewal timer set by the token
    request is still scheduled: no clearTimeout was issued, and when the
    timer fires a further token is requested and a further timer set. *)
Theorem import_rejected_leaves_timer :
  fst Demo.failed_run = Rejected (ConnectionNotFound "Nope")
  /\ tokenTimeout (snd Demo.failed_run) = Some 60000
  /\ ~ In EvClearTimeout (trace (snd Demo.failed_run))
  /\ trace (fireTokenTimeout Demo.env (snd Demo.failed_run))
     = trace (snd Demo.failed_run) ++ [EvGrant; EvSetTimeout 60000]
  /\ tokenTimeout (fireTokenTimeout Demo.env (snd Demo.failed_run))
     = Some 60000.
Proof.
  split; [vm_compute; reflexivity |].
  split; [vm_compute; reflexivity |].
  split.
  - vm_compute. intros H.
    repeat (destruct H as [H | H]; [discriminate |]). exact H.
  - split; vm_compute; reflexivity.
Qed.

(** C5, refuted as stated -- two patterns that both match a.json expand to
    a list holding a.json twice, and the run submits that file twice. *)
Lemma expand_keeps_duplicates :
  fst (expand Demo.env ["a*.json"; "*.json"] initial)
    = Resolved ["a.json"; "a.json"; "b.json"; "big.json"]
  /\ ~ NoDup ["a.json"; "a.json"; "b.json"; "big.json"]
  /\ submitted (trace (snd Demo.run)) = ["a.json"; "a.json"; "b.json"].
Proof.
  split; [vm_compute; reflexivity |].
  split; [| vm_compute; reflexivity].
  intros H. inversion H as [| x l Hnotin _]; subst.
  apply Hnotin. left. reflexivity.
Qed.

(** ** The theorems at concrete inputs *)

Lemma import_without_patterns_witness :
  exists tail,
    trace (snd (import Demo.env Demo.clientId 0 Demo.options None initial))
      = [EvGrant; EvSetTimeout 60000; EvRequest (GET_connections "Users")]
        ++ tail
    /\ ((exists stats,
           fst (import Demo.env Demo.clientId 0 Demo.options None initial)
             = Resolved stats
           /\ files stats = [] /\ tail = [EvClearTimeout])
        \/ (exists e,
              fst (import Demo.env Demo.clientId 0 Demo.options None initial)
                = Rejected e
              /\ tail = [])).
Proof.
  refine (proj2 (import_without_patterns Demo.env Demo.clientId 0 Demo.options
                   "Users" None initial eq_refl _ eq_refl)
                (mkTokenResponse "tok" 120) eq_refl).
  discriminate.
Defined.

Lemma waitAndCheck_polling_witness :
  exists w',
    waitAndCheck Demo.env 2 "a.json" Demo.stats0 Demo.waiting Demo.polling
      = (Resolved
           (mkRunStats 3 (mkConnectionRef "con_1" "Users") false true
                       [mkFileResult "a.json" Demo.done []] None),
         w')
    /\ trace w'
       = trace Demo.polling
         ++ [EvWait 5000; EvRequest (GET_job "job:a.json");
             EvWait 5000; EvRequest (GET_job "job:a.json");
             EvRequest (GET_job_errors "job:a.json")].
Proof.
  destruct (waitAndCheck_polling Demo.env [Demo.waiting; Demo.waiting] Demo.done
              2 "a.json" Demo.stats0 Demo.polling "tok" [])
    as (w' & Hrun & Htrace & _).
  - reflexivity.
  - repeat constructor.
  - discriminate.
  - simpl. repeat split.
  - reflexivity.
  - simpl. lia.
  - exists w'. split; [exact Hrun | exact Htrace].
Defined.

Lemma import_files_match_admitted_witness :
  map fr_name (files Demo.run_stats) = ["a.json"; "a.json"; "b.json"]
  /\ submitted (trace Demo.run_world) = ["a.json"; "a.json"; "b.json"].
Proof.
  destruct (import_files_match_admitted Demo.env Demo.clientId 2 Demo.options
              Demo.patterns initial Demo.run_stats Demo.run_world Demo_run)
    as (_ & Hnames & Hsent & _).
  vm_compute in Hnames, Hsent.
  split; [exact Hnames | exact Hsent].
Defined.

Lemma expand_concatenates_witness :
  fst (expand Demo.env ["a*.json"; "*.json"] initial)
    = Resolved ["a.json"; "a.json"; "b.json"; "big.json"]
  /\ submitted (trace Demo.run_world) = ["a.json"; "a.json"; "b.json"].
Proof.
  destruct (expand_concatenates Demo.env Demo.clientId ["a*.json"; "*.json"]
              initial (Demo_globs _))
    as (Hexpand & _ & _ & Hsent).
  split; [exact Hexpand |].
  exact (Hsent 2%nat Demo.options Demo.run_stats Demo.run_world Demo_run).
Defined.


Lemma import_resolves_with_record_errors_witness :
  exists stats w',
    import Demo.env Demo.clientId 2 Demo.options (Some ["a*.json"; "b*.json"])
           initial
      = (Resolved stats, w')
    /\ map fr_name (files stats) = ["a.json"; "b.json"]
    /\ map (fun fr => List.length (fr_errors fr)) (files stats) = [0; 2]%nat.
Proof.
  destruct (import_resolves_with_record_errors Demo.env Demo.clientId 2 2
              Demo.options "Users" (Some ["a*.json"; "b*.json"]) initial
              (mkTokenResponse "tok" 120) Demo.users [])
    as (stats & w' & Hrun & Hnames & _).
  - reflexivity.
  - discriminate.
  - reflexivity.
  - apply Demo_globs.
  - apply Demo_sizes.
  - reflexivity.
  - split; [reflexivity | simpl; right; left; reflexivity].
  - exact Demo_answered.
  - exact Demo_stable_ids.
  - exact Demo_terminal_within.
  - lia.
  - exists stats, w'. split; [exact Hrun |]. split; [exact Hnames |].
    vm_compute in Hrun. injection Hrun as <- _. reflexivity.
Defined.

Lemma checkFileSize_admission_witness :
  ~ In "big.json" (map fr_name (files Demo.run_stats))
  /\ In "b.json" (submitted (trace Demo.run_world)).
Proof.
  split.
  - refine (proj2 (proj2 (proj1 (proj2
      (checkFileSize_admission Demo.env Demo.clientId 2 Demo.options
         Demo.patterns initial (Resolved Demo.run_stats) Demo.run_world
         "big.json" 500001 Demo_run eq_refl)) _))
      Demo.run_stats eq_refl).
    reflexivity.
  - refine (proj1 (proj2 (proj2 (proj2
      (checkFileSize_admission Demo.env Demo.clientId 2 Demo.options
         Demo.patterns initial (Resolved Demo.run_stats) Demo.run_world
         "b.json" 500000 Demo_run eq_refl)) _)
      Demo.run_stats eq_refl _)).
    + discriminate.
    + simpl. right. right. left. reflexivity.
Defined.

Lemma getManagementToken_renewal_delay_witness :
  tokenTimeout (snd (getManagementToken Demo.env initial)) = Some (60 * 1000)
  /\ trace (snd (getManagementToken Demo.env initial))
     = [EvGrant; EvSetTimeout 60000].
Proof.
  destruct (getManagementToken_renewal_delay Demo.env initial
              (mkTokenResponse "tok" 120) eq_refl)
    as (Htimer & Htrace & _).
  split; [exact Htimer | exact Htrace].
Defined.

Lemma getConnection_first_only_witness :
  fst (getConnection Cases.env_two Demo.clientId "Users" None (Some true)
                     Demo.polling)
    = Resolved (mkRunStats 4 (mkConnectionRef "con_1" "Users") false true
                           [] None)
  /\ fst (getConnection Cases.env_two Demo.clientId "Later" None None
                        Demo.polling)
     = Rejected (NotDatabaseConnection "Later")
  /\ getConnection Demo.env Demo.clientId "Mixed" None None Demo.polling
     = getConnection Demo.env_head Demo.clientId "Mixed" None None Demo.polling.
Proof.
  split; [| split].
  - apply (getConnection_first_only Cases.env_two Demo.clientId "Users" None
             (Some true) Demo.polling "tok" Demo.users [Cases.second]
             eq_refl eq_refl).
    split; [reflexivity | simpl; auto].
  - apply (getConnection_first_only Cases.env_two Demo.clientId "Later" None
             None Demo.polling "tok" Demo.legacy [Cases.second]
             eq_refl eq_refl).
    discriminate.
  - destruct (getConnection_first_only Demo.env Demo.clientId "Mixed" None
                None Demo.polling "tok" Demo.legacy [Demo.users]
                eq_refl eq_refl) as (_ & _ & _ & _ & Hsame).
    apply (Hsame Demo.env_head []); reflexivity.
Defined.

(** * Further properties of the importer *)

Section Runs.

Variable env : Env.
Variable clientId : string.

(** ** The shape of a job *)

Lemma waitAndCheck_resolved_inv fuel name stats :
  forall result w s w',
    waitAndCheck env fuel name stats result w = (Resolved s, w') ->
    exists pend final errors,
      Forall pending pend /\ ~ pending final
      /\ hd final pend = result
      /\ (List.length pend <= fuel)%nat
      /\ s = push stats (mkFileResult name final errors)
      /\ w' = mkWorld (tokenPromise w) (tokenTimeout w) (grants w)
                      (S (requests w + List.length pend))
                      (trace w ++ flat_map repoll pend
                       ++ [EvRequest (GET_job_errors (job_id final))]).
Proof.
  induction fuel as [| fuel IH]; intros result w s w' H;
    destruct (pending_dec result) as [Hp | Hnp].
  - rewrite waitAndCheck_exhausted in H by assumption. discriminate.
  - rewrite waitAndCheck_terminal in H by assumption.
    apply bind_resolved_inv in H. destruct H as (errors & w1 & Hc & Hr).
    apply callApi_resolved in Hc. destruct Hc as (_ & _ & ->).
    inversion Hr; subst.
    exists [], result, errors. simpl. rewrite Nat.add_0_r.
    repeat split; trivial; lia.
  - rewrite waitAndCheck_pending in H by assumption.
    rewrite (bind_step (emit (EvWait WAIT_INTERVAL)) _ w tt
               (snd (emit (EvWait WAIT_INTERVAL) w)) eq_refl) in H.
    apply bind_resolved_inv in H. destruct H as (next & w1 & Hc & Hr).
    apply callApi_resolved in Hc. destruct Hc as (_ & _ & ->).
    apply IH in Hr.
    destruct Hr as (pend & final & errors & Hpend & Hfinal & Hhd & Hlen & -> & ->).
    exists (result :: pend), final, errors. simpl.
    repeat split; trivial.
    + constructor; assumption.
    + lia.
    + rewrite Nat.add_succ_r. f_equal.
      rewrite <- !app_assoc. reflexivity.
  - rewrite waitAndCheck_terminal in H by assumption.
    apply bind_resolved_inv in H. destruct H as (errors & w1 & Hc & Hr).
    apply callApi_resolved in Hc. destruct Hc as (_ & _ & ->).
    inversion Hr; subst.
    exists [], result, errors. simpl. rewrite Nat.add_0_r.
    repeat split; trivial; lia.
Qed.

Lemma submitOne_resolved_inv fuel file stats w s w' :
  submitOne env fuel file stats w = (Resolved s, w') ->
  exists pend final errors,
    Forall pending pend /\ ~ pending final
    /\ s = push stats (mkFileResult file final errors)
    /\ tokenPromise w' = tokenPromise w
    /\ tokenTimeout w' = tokenTimeout w
    /\ trace w' = trace w
                  ++ job_block (ref_id (connection stats))
                       (toString (upsert stats)) (toString (email stats))
                       file pend final.
Proof.
  unfold submitOne. intros H.
  apply bind_resolved_inv in H. destruct H as (job & w1 & Hc & Hr).
  apply callApi_resolved in Hc. destruct Hc as (_ & _ & ->).
  apply waitAndCheck_resolved_inv in Hr.
  destruct Hr as (pend & final & errors & Hpend & Hfinal & _ & _ & -> & ->).
  exists pend, final, errors. simpl.
  repeat split; trivial.
  unfold job_block. rewrite <- app_assoc. reflexivity.
Qed.

Lemma push_fields stats f :
  connection (push stats f) = connection stats
  /\ upsert (push stats f) = upsert stats
  /\ email (push stats f) = email stats
  /\ startTime (push stats f) = startTime stats
  /\ endTime (push stats f) = endTime stats.
Proof. repeat split. Qed.

Lemma submitAll_resolved_inv fuel l :
  forall stats w s w',
    submitAll env fuel l stats w = (Resolved s, w') ->
    connection s = connection stats
    /\ upsert s = upsert stats /\ email s = email stats
    /\ startTime s = startTime stats
    /\ tokenPromise w' = tokenPromise w
    /\ tokenTimeout w' = tokenTimeout w
    /\ exists entries blocks,
         files s = files stats ++ entries
         /\ map fr_name entries = l
         /\ Forall (fun fr => ~ pending (fr_result fr)) entries
         /\ Forall2 (is_job_block (ref_id (connection stats))
                       (toString (upsert stats)) (toString (email stats)))
                    l blocks
         /\ trace w' = trace w ++ concat blocks.
Proof.
  induction l as [| file l IH]; intros stats w s w' H; simpl in H.
  - inversion H; subst. repeat split; trivial.
    exists [], []. repeat split.
    + symmetry. apply app_nil_r.
    + constructor.
    + constructor.
    + symmetry. apply app_nil_r.
  - apply bind_resolved_inv in H. destruct H as (s1 & w1 & H1 & Hr).
    apply submitOne_resolved_inv in H1.
    destruct H1 as (pend & final & errors & Hpend & Hfinal & -> & Ht & Hto & Htr).
    apply IH in Hr.
    destruct Hr as (Hc & Hu & He & Hst & Ht' & Hto' & entries & blocks
                    & Hfiles & Hnames & Hterm & Hblocks & Htr').
    simpl in *.
    repeat split; try congruence.
    exists (mkFileResult file final errors :: entries),
           (job_block (ref_id (connection stats)) (toString (upsert stats))
                      (toString (email stats)) file pend final :: blocks).
    repeat split.
    + rewrite Hfiles, <- app_assoc. reflexivity.
    + simpl. rewrite Hnames. reflexivity.
    + constructor; assumption.
    + constructor; [| exact Hblocks].
      exists pend, final. repeat split; assumption.
    + rewrite Htr', Htr. simpl. rewrite <- app_assoc. reflexivity.
Qed.

Lemma getConnection_resolved_inv name upsert email w s0 w' :
  getConnection env clientId name upsert email w = (Resolved s0, w') ->
  exists token c rest,
    tokenPromise w = Some (Ok token)
    /\ rp env (requests w) (GET_connections name) = Ok (Some (c :: rest))
    /\ eligible clientId c
    /\ s0 = mkRunStats (Date_now env (S (List.length (trace w))))
                       (mkConnectionRef (conn_id c) (conn_name c))
                       (truthy upsert) (truthy email) [] None
    /\ w' = mkWorld (tokenPromise w) (tokenTimeout w) (grants w)
                    (S (requests w))
                    (trace w ++ [EvRequest (GET_connections name)]).
Proof.
  unfold getConnection. intros H.
  apply bind_resolved_inv in H. destruct H as (listing & w1 & Hc & Hr).
  apply callApi_resolved in Hc. destruct Hc as ((token & Htok) & Hrp & ->).
  destruct listing as [[| c rest] |]; try discriminate.
  destruct (String.eqb_spec (strategy c) "auth0") as [Hs | Hs];
    simpl in Hr; [| discriminate].
  destruct (indexOf (enabled_clients c) clientId <? 0) eqn:E; [discriminate |].
  unfold bind, now, resolve in Hr. simpl in Hr.
  rewrite length_app, Nat.add_1_r in Hr. inversion Hr; subst.
  exists token, c, rest. repeat split; trivial.
  apply indexOf_In, E.
Qed.

(** Everything a run that resolves has done and reports. *)
Lemma import_resolved_full fuel options patterns w stats w' :
  import env clientId fuel options patterns w = (Resolved stats, w') ->
  exists name response c rest blocks n1 n2,
    opt_connection options = Some name /\ name <> EmptyString
    /\ clientCredentialsGrant env (grants w) = Ok response
    /\ rp env (requests w) (GET_connections name) = Ok (Some (c :: rest))
    /\ eligible clientId c
    /\ connection stats = mkConnectionRef (conn_id c) (conn_name c)
    /\ upsert stats = truthy (opt_upsert options)
    /\ email stats = truthy (opt_email options)
    /\ startTime stats = Date_now env n1
    /\ endTime stats = Some (Date_now env n2)
    /\ (n1 <= n2)%nat
    /\ map fr_name (files stats) = admitted env patterns
    /\ Forall (fun fr => ~ pending (fr_result fr)) (files stats)
    /\ Forall2 (is_job_block (conn_id c)
                  (toString (truthy (opt_upsert options)))
                  (toString (truthy (opt_email options))))
               (admitted env patterns) blocks
    /\ trace w' = trace w
                  ++ [EvGrant; EvSetTimeout (renewDelay response)]
                  ++ map EvGlob (or_empty patterns)
                  ++ map EvStat (expansion env (or_empty patterns))
                  ++ [EvRequest (GET_connections name)]
                  ++ concat blocks
                  ++ [EvClearTimeout].
Proof.
  intros H.
  destruct (opt_connection options) as [name |] eqn:Hc.
  2:{ rewrite import_unnamed in H by (left; exact Hc). discriminate. }
  destruct (string_dec name EmptyString) as [-> | Hne].
  { rewrite import_unnamed in H by (right; exact Hc). discriminate. }
  destruct (import_resolved_inv env clientId _ _ _ _ _ _ _ Hc Hne H)
    as (s0 & w4 & results & w5 & _ & _ & Hg & Hsub & -> & ->).
  apply getConnection_resolved_inv in Hg.
  destruct Hg as (token & c & rest & Htok & Hrp & Helig & -> & ->).
  apply submitAll_resolved_inv in Hsub.
  destruct Hsub as (Hconn & Hu & He & Hst & _ & _ & entries & blocks
                    & Hfiles & Hnames & Hterm & Hblocks & Htr).
  simpl in *.
  unfold getManagementToken in *.
  destruct (clientCredentialsGrant env (grants w)) as [response | e] eqn:Hgrant;
    simpl in *.
  2:{ discriminate. }
  exists name, response, c, rest, blocks.
  eexists. eexists.
  split; [reflexivity |]. split; [exact Hne |]. split; [reflexivity |].
  split; [exact Hrp |]. split; [exact Helig |].
  split; [exact Hconn |]. split; [exact Hu |]. split; [exact He |].
  split; [rewrite Hst; reflexivity |]. split; [reflexivity |].
  split.
  - rewrite Htr, !length_app. simpl. lia.
  - split; [rewrite Hfiles; exact Hnames |].
    split; [rewrite Hfiles; exact Hterm |].
    split; [exact Hblocks |].
    rewrite Htr. rewrite <- !app_assoc. reflexivity.
Qed.

(** ** Runs that resolve *)

Lemma pipeline_app a b : pipeline (a ++ b) = pipeline a ++ pipeline b.
Proof. apply filter_app. Qed.

Lemma pipeline_same l :
  Forall (fun e => is_renewal e = false) l -> pipeline l = l.
Proof.
  induction 1 as [| e l He _ IH]; [reflexivity |].
  unfold pipeline in *. simpl. rewrite He. simpl. rewrite IH. reflexivity.
Qed.

Lemma pipeline_globs l : pipeline (map EvGlob l) = map EvGlob l.
Proof.
  apply pipeline_same, Forall_forall. intros e He.
  apply in_map_iff in He. destruct He as (x & <- & _). reflexivity.
Qed.

Lemma pipeline_stats l : pipeline (map EvStat l) = map EvStat l.
Proof.
  apply pipeline_same, Forall_forall. intros e He.
  apply in_map_iff in He. destruct He as (x & <- & _). reflexivity.
Qed.

Lemma pipeline_jobs l :
  Forall (fun e => is_job_event e = true) l -> pipeline l = l.
Proof.
  intros H. apply pipeline_same. revert H. apply Forall_impl.
  intros e He. destruct e; simpl in *; try reflexivity; discriminate.
Qed.

Lemma job_block_events c u e file pend final :
  Forall (fun ev => is_job_event ev = true) (job_block c u e file pend final).
Proof.
  unfold job_block. constructor; [reflexivity |].
  apply Forall_app. split; [| repeat constructor].
  induction pend as [| p pend IH]; simpl; [constructor |].
  repeat (constructor; [reflexivity |]). exact IH.
Qed.

Lemma job_blocks_events c u e names blocks :
  Forall2 (is_job_block c u e) names blocks ->
  Forall (fun ev => is_job_event ev = true) (concat blocks).
Proof.
  induction 1 as [| file block names blocks Hb _ IH]; simpl; [constructor |].
  apply Forall_app. split; [| exact IH].
  destruct Hb as (pend & final & _ & _ & ->). apply job_block_events.
Qed.

Lemma job_events_keep_timer jobs :
  Forall (fun ev => is_job_event ev = true) jobs -> ~ In EvClearTimeout jobs.
Proof.
  intros H Hin. rewrite Forall_forall in H. specialize (H _ Hin). discriminate.
Qed.



(** X3 -- with a clock that never runs backwards, the start time of a
    resolved run does not exceed its end time. *)
Theorem import_times_ordered :
  forall (fuel : nat) (options : Options) (patterns : option (list string))
         (w : World) (stats : RunStats) (w' : World),
    monotone_clock env ->
    import env clientId fuel options patterns w = (Resolved stats, w') ->
    exists t, endTime stats = Some t /\ startTime stats <= t.
Proof.
  intros fuel options patterns w stats w' Hclock H.
  destruct (import_resolved_full _ _ _ _ _ _ H)
    as (name & response & c & rest & blocks & n1 & n2 & _ & _ & _ & _ & _
        & _ & _ & _ & Hstart & Hend & Hle & _).
  exists (Date_now env n2). split; [exact Hend |].
  rewrite Hstart. apply Hclock. exact Hle.
Qed.

(** ** Failures before the first call of the Management API *)

Lemma Promise_all_readFiles_outcome pats :
  forall w,
    fst (Promise_all (map (readFiles env) pats) w) =
      match first_error (glob env) pats with
      | Some e => Rejected e
      | None => Resolved (map (matches env) pats)
      end.
Proof.
  induction pats as [| p pats IH]; intros w; simpl.
  - reflexivity.
  - rewrite readFiles_run.
    specialize (IH (logged w [EvGlob p])).
    destruct (Promise_all (map (readFiles env) pats) (logged w [EvGlob p]))
      as [rs w2].
    simpl in IH. subst rs. unfold matches at 2.
    destruct (glob env p) as [l | e]; simpl; [| reflexivity].
    destruct (first_error (glob env) pats); reflexivity.
Qed.

Lemma expand_outcome pats w :
  expand env pats w =
    (match first_error (glob env) pats with
     | Some e => Rejected e
     | None => Resolved (expansion env pats)
     end, logged w (map EvGlob pats)).
Proof.
  rewrite <- (expand_world env pats w).
  pose proof (Promise_all_readFiles_outcome pats w) as H.
  unfold expand, bind in *.
  destruct (Promise_all (map (readFiles env) pats) w) as [rs w1].
  simpl in H. subst rs.
  destruct (first_error (glob env) pats); simpl; [reflexivity |].
  unfold resolve. rewrite fold_left_concat. simpl. unfold expansion.
  rewrite flat_map_concat_map. reflexivity.
Qed.

Lemma filterM_outcome l :
  forall w,
    filterM (checkFileSize env) l w =
      (match first_error (statSync_size env) l with
       | Some e => Rejected e
       | None => Resolved (filter (admits env) l)
       end, logged w (map EvStat (until_error (statSync_size env) l))).
Proof.
  induction l as [| x l IH]; intros w; simpl.
  - unfold resolve. rewrite logged_nil. reflexivity.
  - unfold bind at 1. rewrite checkFileSize_run.
    unfold admits at 1.
    destruct (statSync_size env x) as [size | e]; [| reflexivity].
    unfold bind. rewrite IH.
    destruct (first_error (statSync_size env) l); simpl.
    + rewrite logged_logged. reflexivity.
    + unfold resolve. rewrite logged_logged. simpl.
      destruct (size >? MAX_FILE_SIZE); reflexivity.
Qed.

Lemma first_error_some {A B} (ask : A -> Result B) (l : list A) x e0 :
  In x l -> ask x = Err e0 -> exists e, first_error ask l = Some e.
Proof.
  induction l as [| y l IH]; simpl; [contradiction |].
  intros [-> | Hin] Hx.
  - rewrite Hx. eauto.
  - destruct (ask y); eauto.
Qed.

Lemma first_error_In {A B} (ask : A -> Result B) (l : list A) e :
  first_error ask l = Some e -> exists x, In x l /\ ask x = Err e.
Proof.
  induction l as [| y l IH]; simpl; [discriminate |].
  destruct (ask y) as [b | e'] eqn:Hy.
  - intros H. destruct (IH H) as (x & Hin & Hx). eauto.
  - intros H. injection H as ->. eauto.
Qed.

Lemma getManagementToken_renewal w :
  exists timer,
    trace (snd (getManagementToken env w)) = trace w ++ EvGrant :: timer
    /\ pipeline timer = []
    /\ requests (snd (getManagementToken env w)) = requests w.
Proof.
  unfold getManagementToken.
  destruct (clientCredentialsGrant env (grants w)) as [response | e]; simpl.
  - exists [EvSetTimeout (renewDelay response)].
    rewrite <- app_assoc. repeat split.
  - exists []. repeat split.
Qed.

(** X4 -- a pattern that cannot be expanded.  When glob fails for some
    pattern, a run with a connection name rejects with the error glob gave
    for one of the failing patterns.  By then the token has been requested
    and every pattern has been handed to glob, but, leaving aside the
    events of the token renewal, nothing else was done: no file has been
    inspected and no call of the Management API was made. *)
Theorem import_glob_failure :
  forall (fuel : nat) (options : Options) (name : string)
         (patterns : option (list string)) (w : World)
         (pattern : string) (e0 : Error),
    opt_connection options = Some name -> name <> EmptyString ->
    In pattern (or_empty patterns) -> glob env pattern = Err e0 ->
    exists e evs w',
      import env clientId fuel options patterns w = (Rejected e, w')
      /\ (exists failing,
            In failing (or_empty patterns) /\ glob env failing = Err e)
      /\ trace w' = trace w ++ EvGrant :: evs
      /\ pipeline evs = map EvGlob (or_empty patterns)
      /\ requests w' = requests w.
Proof.
  intros fuel options name patterns w pattern e0 Hc Hne Hin Hp.
  destruct (first_error_some _ _ _ _ Hin Hp) as (e & Herr).
  destruct (getManagementToken_renewal w) as (timer & Htr & Hpt & Hreq).
  exists e, (timer ++ map EvGlob (or_empty patterns)),
         (logged (snd (getManagementToken env w))
                 (map EvGlob (or_empty patterns))).
  split.
  { rewrite (import_named env clientId _ _ _ _ _ Hc Hne).
    unfold bind at 1. rewrite expand_outcome, Herr. reflexivity. }
  split; [exact (first_error_In _ _ _ Herr) |].
  split; [simpl; rewrite Htr, <- app_assoc; reflexivity |].
  split; [rewrite pipeline_app, Hpt, pipeline_globs; reflexivity |].
  exact Hreq.
Qed.

(** X5 -- a file that cannot be inspected.  When every pattern expands
    but statSync fails for some expanded path, the run rejects with the
    error of the first such path.  Leaving aside the events of the token
    renewal, the run has by then issued the token request, one glob per
    pattern and one stat per expanded path up to and including the failing
    one: the paths after it are not inspected, and no call of the
    Management API was made. *)
Theorem import_stat_failure :
  forall (fuel : nat) (options : Options) (name : string)
         (patterns : option (list string)) (w : World) (e : Error),
    opt_connection options = Some name -> name <> EmptyString ->
    first_error (glob env) (or_empty patterns) = None ->
    first_error (statSync_size env) (expansion env (or_empty patterns))
      = Some e ->
    exists evs w',
      import env clientId fuel options patterns w = (Rejected e, w')
      /\ trace w' = trace w ++ EvGrant :: evs
      /\ pipeline evs
         = map EvGlob (or_empty patterns)
           ++ map EvStat (until_error (statSync_size env)
                            (expansion env (or_empty patterns)))
      /\ requests w' = requests w.
Proof.
  intros fuel options name patterns w e Hc Hne Hglob Herr.
  destruct (getManagementToken_renewal w) as (timer & Htr & Hpt & Hreq).
  exists (timer ++ map EvGlob (or_empty patterns)
          ++ map EvStat (until_error (statSync_size env)
                           (expansion env (or_empty patterns)))),
         (logged (snd (getManagementToken env w))
                 (map EvGlob (or_empty patterns)
                  ++ map EvStat (until_error (statSync_size env)
                                   (expansion env (or_empty patterns))))).
  split.
  { rewrite (import_named env clientId _ _ _ _ _ Hc Hne).
    unfold bind at 1. rewrite expand_outcome, Hglob.
    unfold bind at 1. rewrite filterM_outcome, Herr, logged_logged.
    reflexivity. }
  split; [simpl; rewrite Htr, <- app_assoc; reflexivity |].
  split; [| exact Hreq].
  rewrite !pipeline_app, Hpt, pipeline_globs, pipeline_stats. reflexivity.
Qed.

(** X6 -- a token request that fails.  When the grant is refused and the
    patterns and files are in order, the run rejects with the error of the
    grant: the listing is never requested, no request at all is sent, and
    no renewal timer is set. *)
Theorem import_token_failure :
  forall (fuel : nat) (options : Options) (name : string)
         (patterns : option (list string)) (w : World) (e : Error),
    opt_connection options = Some name -> name <> EmptyString ->
    clientCredentialsGrant env (grants w) = Err e ->
    first_error (glob env) (or_empty patterns) = None ->
    first_error (statSync_size env) (expansion env (or_empty patterns))
      = None ->
    import env clientId fuel options patterns w =
      (Rejected e,
       mkWorld (Some (Err e)) (tokenTimeout w) (S (grants w)) (requests w)
               (trace w ++ [EvGrant]
                ++ map EvGlob (or_empty patterns)
                ++ map EvStat (expansion env (or_empty patterns)))).
Proof.
  intros fuel options name patterns w e Hc Hne Hgrant Hglob Hstat.
  rewrite (import_named env clientId _ _ _ _ _ Hc Hne).
  unfold bind at 1. rewrite expand_outcome, Hglob.
  unfold bind at 1. rewrite filterM_outcome, Hstat, logged_logged.
  unfold bind at 1. rewrite postUserImport_fold.
  unfold getManagementToken. rewrite Hgrant. simpl.
  assert (Hall : until_error (statSync_size env)
                   (expansion env (or_empty patterns))
                 = expansion env (or_empty patterns)).
  { revert Hstat. generalize (expansion env (or_empty patterns)).
    induction l as [| x l IH]; simpl; [reflexivity |].
    destruct (statSync_size env x); [| discriminate].
    intros Hs. rewrite (IH Hs). reflexivity. }
  rewrite Hall.
  unfold bind, getConnection, callApi, logged. simpl.
  rewrite <- !app_assoc. reflexivity.
Qed.

(** ** The events of any run *)

Lemma advanced_nil w : advanced w [] = w.
Proof.
  destruct w. unfold advanced. simpl.
  rewrite app_nil_r, Nat.add_0_r. reflexivity.
Qed.

Lemma advanced_advanced w a b : advanced (advanced w a) b = advanced w (a ++ b).
Proof.
  unfold advanced. simpl.
  rewrite filter_app, length_app, Nat.add_assoc, app_assoc. reflexivity.
Qed.

Lemma callApi_advanced r w out w' :
  callApi env r w = (out, w') ->
  w' = w \/ w' = advanced w [EvRequest r].
Proof.
  unfold callApi.
  destruct (tokenPromise w) as [[token | e] |] eqn:Htok.
  - destruct (rp env (requests w) r); intros H; inversion H; subst; right;
      unfold advanced; simpl; rewrite Nat.add_1_r, Htok; reflexivity.
  - intros H; inversion H; subst. left. reflexivity.
  - intros H; inversion H; subst. left. reflexivity.
Qed.

Lemma waitAndCheck_events fuel name stats :
  forall result w out w',
    waitAndCheck env fuel name stats result w = (out, w') ->
    exists evs,
      w' = advanced w evs /\ Forall (fun e => is_job_event e = true) evs.
Proof.
  induction fuel as [| fuel IH]; intros result w out w' H;
    destruct (pending_dec result) as [Hp | Hnp].
  - rewrite waitAndCheck_exhausted in H by assumption. inversion H; subst.
    exists []. split; [symmetry; apply advanced_nil | constructor].
  - rewrite waitAndCheck_terminal in H by assumption.
    apply bind_inv in H.
    destruct H as [(errors & w1 & Hc & Hr) | [(e & Hc & ->) | (Hc & ->)]];
      apply callApi_advanced in Hc;
      try (inversion Hr; subst);
      (destruct Hc as [-> | ->];
       [exists []; split; [symmetry; apply advanced_nil | constructor]
       | eexists; split; [reflexivity | repeat constructor]]).
  - rewrite waitAndCheck_pending in H by assumption.
    rewrite (bind_step (emit (EvWait WAIT_INTERVAL)) _ w tt
               (advanced w [EvWait WAIT_INTERVAL])) in H.
    2:{ unfold emit, advanced. simpl. rewrite Nat.add_0_r. reflexivity. }
    apply bind_inv in H.
    destruct H as [(next & w1 & Hc & Hr) | [(e & Hc & ->) | (Hc & ->)]];
      apply callApi_advanced in Hc.
    + apply IH in Hr. destruct Hr as (evs & -> & Hevs).
      destruct Hc as [-> | ->]; rewrite ?advanced_advanced;
        eexists; (split; [reflexivity |]).
      * constructor; [reflexivity | exact Hevs].
      * simpl. constructor; [reflexivity |].
        constructor; [reflexivity | exact Hevs].
    + destruct Hc as [-> | ->]; rewrite ?advanced_advanced;
        eexists; (split; [reflexivity | repeat constructor]).
    + destruct Hc as [-> | ->]; rewrite ?advanced_advanced;
        eexists; (split; [reflexivity | repeat constructor]).
  - rewrite waitAndCheck_terminal in H by assumption.
    apply bind_inv in H.
    destruct H as [(errors & w1 & Hc & Hr) | [(e & Hc & ->) | (Hc & ->)]];
      apply callApi_advanced in Hc;
      try (inversion Hr; subst);
      (destruct Hc as [-> | ->];
       [exists []; split; [symmetry; apply advanced_nil | constructor]
       | eexists; split; [reflexivity | repeat constructor]]).
Qed.

Lemma submitAll_events fuel l :
  forall stats w out w',
    submitAll env fuel l stats w = (out, w') ->
    exists evs,
      w' = advanced w evs /\ Forall (fun e => is_job_event e = true) evs.
Proof.
  induction l as [| file l IH]; intros stats w out w' H; simpl in H.
  - inversion H; subst.
    exists []. split; [symmetry; apply advanced_nil | constructor].
  - assert (Hone : forall o w1,
              submitOne env fuel file stats w = (o, w1) ->
              exists evs, w1 = advanced w evs
                          /\ Forall (fun e => is_job_event e = true) evs).
    { intros o w1 H1. unfold submitOne in H1. apply bind_inv in H1.
      destruct H1 as [(job & w2 & Hc & Hr) | [(e & Hc & ->) | (Hc & ->)]];
        apply callApi_advanced in Hc.
      - apply waitAndCheck_events in Hr. destruct Hr as (evs & -> & Hevs).
        destruct Hc as [-> | ->]; rewrite ?advanced_advanced;
          eexists; (split; [reflexivity |]); [exact Hevs |].
        constructor; [reflexivity | exact Hevs].
      - destruct Hc as [-> | ->];
          [exists []; split; [symmetry; apply advanced_nil | constructor]
          | eexists; split; [reflexivity | repeat constructor]].
      - destruct Hc as [-> | ->];
          [exists []; split; [symmetry; apply advanced_nil | constructor]
          | eexists; split; [reflexivity | repeat constructor]]. }
    apply bind_inv in H.
    destruct H as [(s1 & w1 & H1 & Hr) | [(e & H1 & ->) | (H1 & ->)]].
    + apply Hone in H1. destruct H1 as (evs1 & -> & Hevs1).
      apply IH in Hr. destruct Hr as (evs2 & -> & Hevs2).
      rewrite advanced_advanced. eexists. split; [reflexivity |].
      apply Forall_app. split; assumption.
    + apply Hone in H1. exact H1.
    + apply Hone in H1. exact H1.
Qed.

Lemma fold_events fuel l name upsert email w out w' :
  fold_left (postUserImport env fuel) l
    (getConnection env clientId name upsert email) w = (out, w') ->
  exists listing jobs,
    w' = advanced w (listing ++ jobs)
    /\ (listing = [] /\ jobs = []
        \/ listing = [EvRequest (GET_connections name)])
    /\ Forall (fun e => is_job_event e = true) jobs.
Proof.
  rewrite postUserImport_fold. intros H. apply bind_inv in H.
  assert (Hg : forall o w1,
            getConnection env clientId name upsert email w = (o, w1) ->
            w1 = w \/ w1 = advanced w [EvRequest (GET_connections name)]).
  { intros o w1 H1. unfold getConnection in H1. apply bind_inv in H1.
    destruct H1 as [(listing & w2 & Hc & Hr) | [(e & Hc & ->) | (Hc & ->)]];
      apply callApi_advanced in Hc; try exact Hc.
    assert (w1 = w2); [| subst; exact Hc].
    destruct listing as [[| c rest] |]; try (inversion Hr; reflexivity).
    destruct (negb (strategy c =? "auth0")%string);
      [inversion Hr; reflexivity |].
    destruct (indexOf (enabled_clients c) clientId <? 0);
      inversion Hr; reflexivity. }
  destruct H as [(s0 & w1 & H1 & Hs) | [(e & H1 & ->) | (H1 & ->)]].
  - pose proof H1 as H1'. apply getConnection_resolved_inv in H1'.
    destruct H1' as (token & c & rest & _ & _ & _ & _ & Hw1).
    apply submitAll_events in Hs. destruct Hs as (jobs & -> & Hjobs).
    exists [EvRequest (GET_connections name)], jobs.
    split; [| split; [right; reflexivity | exact Hjobs]].
    rewrite <- advanced_advanced. f_equal. rewrite Hw1.
    unfold advanced. simpl. rewrite Nat.add_1_r. reflexivity.
  - apply Hg in H1. destruct H1 as [-> | ->].
    + exists [], []. split; [symmetry; apply advanced_nil |].
      split; [left; split; reflexivity | constructor].
    + exists [EvRequest (GET_connections name)], [].
      split; [reflexivity |]. split; [right; reflexivity | constructor].
  - apply Hg in H1. destruct H1 as [-> | ->].
    + exists [], []. split; [symmetry; apply advanced_nil |].
      split; [left; split; reflexivity | constructor].
    + exists [EvRequest (GET_connections name)], [].
      split; [reflexivity |]. split; [right; reflexivity | constructor].
Qed.

Lemma getManagementToken_trace w :
  exists timer,
    trace (snd (getManagementToken env w)) = trace w ++ [EvGrant] ++ timer
    /\ grants (snd (getManagementToken env w)) = S (grants w)
    /\ requests (snd (getManagementToken env w)) = requests w
    /\ (timer = []
        \/ exists response,
             clientCredentialsGrant env (grants w) = Ok response
             /\ timer = [EvSetTimeout (renewDelay response)]).
Proof.
  unfold getManagementToken.
  destruct (clientCredentialsGrant env (grants w)) as [response | e]; simpl.
  - exists [EvSetTimeout (renewDelay response)].
    rewrite <- app_assoc. repeat split. right. exists response. split; reflexivity.
  - exists []. repeat split. left. reflexivity.
Qed.

Lemma until_error_prefix {A B} (ask : A -> Result B) (l : list A) :
  exists later, l = until_error ask l ++ later.
Proof.
  induction l as [| x l IH]; simpl; [exists []; reflexivity |].
  destruct (ask x).
  - destruct IH as (later & IH). exists later. simpl. f_equal. exact IH.
  - exists l. reflexivity.
Qed.

Lemma import_events_shape :
  forall (fuel : nat) (options : Options) (name : string)
         (patterns : option (list string)) (w : World),
    opt_connection options = Some name -> name <> EmptyString ->
    let out := fst (import env clientId fuel options patterns w) in
    let w' := snd (import env clientId fuel options patterns w) in
    exists timer seen listing jobs clear,
      trace w' = trace w ++ [EvGrant] ++ timer
                 ++ map EvGlob (or_empty patterns) ++ map EvStat seen
                 ++ listing ++ jobs ++ clear
      /\ grants w' = S (grants w)
      /\ (timer = []
          \/ exists response,
               clientCredentialsGrant env (grants w) = Ok response
               /\ timer = [EvSetTimeout (renewDelay response)])
      /\ (listing = [] /\ jobs = []
          \/ listing = [EvRequest (GET_connections name)])
      /\ Forall (fun e => is_job_event e = true) jobs
      /\ (clear = []
          \/ clear = [EvClearTimeout] /\ exists stats, out = Resolved stats)
      /\ (exists later, expansion env (or_empty patterns) = seen ++ later).
Proof.
  intros fuel options name patterns w Hc Hne out w'. subst out w'.
  destruct (import env clientId fuel options patterns w) as [out w'] eqn:H.
  simpl. rewrite (import_named env clientId _ _ _ _ _ Hc Hne) in H.
  destruct (getManagementToken_trace w) as (timer & Htr1 & Hg1 & _ & Htimer).
  set (w1 := snd (getManagementToken env w)) in *.
  exists timer.
  unfold bind at 1 in H. rewrite expand_outcome in H.
  destruct (first_error (glob env) (or_empty patterns)) as [e |].
  { injection H as <- <-.
    exists [], [], [], []. simpl. rewrite Htr1, !app_nil_r, <- !app_assoc.
    repeat split; auto. eexists. reflexivity. }
  unfold bind at 1 in H. rewrite filterM_outcome, logged_logged in H.
  destruct (first_error (statSync_size env) (expansion env (or_empty patterns)))
    as [e |].
  { injection H as <- <-.
    eexists. exists [], [], []. simpl.
    rewrite Htr1, !app_nil_r, <- !app_assoc.
    repeat split; auto. apply until_error_prefix. }
  unfold bind at 1 in H.
  destruct (fold_left (postUserImport env fuel)
              (filter (admits env) (expansion env (or_empty patterns)))
              (getConnection env clientId name (opt_upsert options)
                             (opt_email options))
              (logged w1 (map EvGlob (or_empty patterns)
                          ++ map EvStat
                               (until_error (statSync_size env)
                                  (expansion env (or_empty patterns))))))
    as [o w5] eqn:Hfold.
  apply fold_events in Hfold.
  destruct Hfold as (listing & jobs & -> & Hlisting & Hjobs).
  exists (until_error (statSync_size env) (expansion env (or_empty patterns))),
         listing, jobs.
  destruct o as [results | e |].
  - rewrite import_finish in H. injection H as <- <-.
    exists [EvClearTimeout]. simpl.
    rewrite Htr1, <- !app_assoc. simpl.
    split; [reflexivity |]. split; [exact Hg1 |].
    split; [exact Htimer |]. split; [exact Hlisting |].
    split; [exact Hjobs |].
    split; [right; split; [reflexivity | eauto] | apply until_error_prefix].
  - injection H as <- <-.
    exists []. simpl. rewrite Htr1, !app_nil_r, <- !app_assoc. simpl.
    repeat split; auto. apply until_error_prefix.
  - injection H as <- <-.
    exists []. simpl. rewrite Htr1, !app_nil_r, <- !app_assoc. simpl.
    repeat split; auto. apply until_error_prefix.
Qed.

(** X7 -- the events of any run with a connection name, whatever its
    outcome.  The token request comes first.  Leaving aside the events of
    the token renewal, the run then issues one glob per pattern, then
    stats of an initial segment of the expanded paths; the connection
    listing is requested at most once and only after them; submissions, delays, re-fetches and error fetches occur
    only after the listing; the timer is cleared only as the last event of
    a run that resolves. *)
Theorem import_events :
  forall (fuel : nat) (options : Options) (name : string)
         (patterns : option (list string)) (w : World),
    opt_connection options = Some name -> name <> EmptyString ->
    let out := fst (import env clientId fuel options patterns w) in
    let w' := snd (import env clientId fuel options patterns w) in
    exists evs seen listing jobs clear,
      trace w' = trace w ++ EvGrant :: evs
      /\ pipeline evs = map EvGlob (or_empty patterns) ++ map EvStat seen
                        ++ listing ++ jobs ++ clear
      /\ (exists later, expansion env (or_empty patterns) = seen ++ later)
      /\ (listing = [] /\ jobs = []
          \/ listing = [EvRequest (GET_connections name)])
      /\ Forall (fun e => is_job_event e = true) jobs
      /\ (clear = []
          \/ clear = [EvClearTimeout] /\ exists stats, out = Resolved stats).
Proof.
  intros fuel options name patterns w Hc Hne out w'. subst out w'.
  destruct (import_events_shape fuel options name patterns w Hc Hne)
    as (timer & seen & listing & jobs & clear
        & Htr & _ & Htimer & Hlisting & Hjobs & Hclear & Hseen).
  exists (timer ++ map EvGlob (or_empty patterns) ++ map EvStat seen
          ++ listing ++ jobs ++ clear), seen, listing, jobs, clear.
  split; [exact Htr |].
  split; [| split; [exact Hseen |
              split; [exact Hlisting | split; [exact Hjobs | exact Hclear]]]].
  rewrite !pipeline_app, pipeline_globs, pipeline_stats,
          (pipeline_jobs jobs Hjobs).
  assert (Ht : pipeline timer = []).
  { destruct Htimer as [-> | (response & _ & ->)]; reflexivity. }
  assert (Hl : pipeline listing = listing).
  { destruct Hlisting as [[-> _] | ->]; reflexivity. }
  assert (Hcl : pipeline clear = clear).
  { destruct Hclear as [-> | [-> _]]; reflexivity. }
  rewrite Ht, Hl, Hcl. reflexivity.
Qed.

(** X8 -- the connection name decides whether anything happens.  Without
    a name, or with the empty name, the run rejects at once and leaves the
    importer untouched; and only then: every run with a name has requested
    a token. *)
Theorem import_requires_name :
  forall (fuel : nat) (options : Options) (patterns : option (list string))
         (w : World),
    (opt_connection options = None
     \/ opt_connection options = Some EmptyString ->
     import env clientId fuel options patterns w = (Rejected NoConnectionName, w))
    /\ (snd (import env clientId fuel options patterns w) = w ->
        opt_connection options = None
        \/ opt_connection options = Some EmptyString).
Proof.
  intros fuel options patterns w. split.
  - apply import_unnamed.
  - intros Hsame.
    destruct (opt_connection options) as [name |] eqn:Hc; [| left; reflexivity].
    destruct (string_dec name EmptyString) as [-> | Hne];
      [right; reflexivity |].
    exfalso.
    destruct (import_events_shape fuel options name patterns w Hc Hne)
      as (timer & seen & listing & jobs & clear & Htr & _).
    rewrite Hsame in Htr.
    apply (f_equal (@List.length Event)) in Htr.
    rewrite !length_app in Htr. simpl in Htr. lia.
Qed.

Lemma import_unresolved_events fuel options patterns w :
  (forall stats,
     fst (import env clientId fuel options patterns w) <> Resolved stats) ->
  exists evs,
    trace (snd (import env clientId fuel options patterns w)) = trace w ++ evs
    /\ ~ In EvClearTimeout evs.
Proof.
  intros Hnr.
  destruct (opt_connection options) as [name |] eqn:Hc.
  2:{ rewrite import_unnamed by (left; exact Hc).
      exists []. simpl. rewrite app_nil_r. auto. }
  destruct (string_dec name EmptyString) as [-> | Hne].
  { rewrite import_unnamed by (right; exact Hc).
    exists []. simpl. rewrite app_nil_r. auto. }
  destruct (import_events_shape fuel options name patterns w Hc Hne)
    as (timer & seen & listing & jobs & clear
        & Htr & _ & Htimer & Hlisting & Hjobs & Hclear & _).
  destruct Hclear as [-> | [_ (stats & Hs)]];
    [| exfalso; exact (Hnr stats Hs)].
  eexists. split; [exact Htr |].
  rewrite app_nil_r, !in_app_iff.
  intros [Hin | [Hin | [Hin | [Hin | [Hin | Hin]]]]].
  - destruct Hin as [Hin | []]; discriminate.
  - destruct Htimer as [-> | (response & _ & ->)];
      [contradiction | destruct Hin as [Hin | []]; discriminate].
  - apply in_map_iff in Hin. destruct Hin as (x & Hx & _). discriminate.
  - apply in_map_iff in Hin. destruct Hin as (x & Hx & _). discriminate.
  - destruct Hlisting as [[-> _] | ->];
      [contradiction | destruct Hin as [Hin | []]; discriminate].
  - exact (job_events_keep_timer jobs Hjobs Hin).
Qed.

(** X9 -- when the renewal timer is cleared.  A run calls clearTimeout in
    exactly one case: it resolves, and then the call is its last action
    and its only such call.  A run that rejects, for whatever reason, or
    that is still polling, has not called clearTimeout at all. *)
Theorem import_clears_timer_iff_resolved :
  forall (fuel : nat) (options : Options) (patterns : option (list string))
         (w : World),
    let out := fst (import env clientId fuel options patterns w) in
    let w' := snd (import env clientId fuel options patterns w) in
    exists evs,
      trace w' = trace w ++ evs
      /\ (((exists stats, out = Resolved stats)
           /\ exists before,
                evs = before ++ [EvClearTimeout]
                /\ ~ In EvClearTimeout before)
          \/ ((forall stats, out <> Resolved stats)
              /\ ~ In EvClearTimeout evs)).
Proof.
  intros fuel options patterns w out w'. subst out w'.
  destruct (import env clientId fuel options patterns w) as [out w'] eqn:H.
  destruct out as [stats | e |].
  - simpl.
    destruct (import_resolved_full _ _ _ _ _ _ H)
      as (name & response & c & rest & blocks & n1 & n2 & _ & _ & _ & _ & _
          & _ & _ & _ & _ & _ & _ & _ & _ & Hblocks & Htr).
    eexists. split; [exact Htr |].
    left. split; [eauto |].
    exists ([EvGrant; EvSetTimeout (renewDelay response)]
            ++ map EvGlob (or_empty patterns)
            ++ map EvStat (expansion env (or_empty patterns))
            ++ [EvRequest (GET_connections name)]
            ++ concat blocks).
    split; [rewrite <- !app_assoc; reflexivity |].
    rewrite !in_app_iff.
    intros [Hin | [Hin | [Hin | [Hin | Hin]]]].
    + destruct Hin as [Hin | [Hin | []]]; discriminate.
    + apply in_map_iff in Hin. destruct Hin as (x & Hx & _). discriminate.
    + apply in_map_iff in Hin. destruct Hin as (x & Hx & _). discriminate.
    + destruct Hin as [Hin | []]; discriminate.
    + exact (job_events_keep_timer _ (job_blocks_events _ _ _ _ _ Hblocks) Hin).
  - assert (Hnr : forall stats,
               fst (import env clientId fuel options patterns w)
               <> Resolved stats) by (rewrite H; discriminate).
    destruct (import_unresolved_events _ _ _ _ Hnr) as (evs & Htr & Hno).
    rewrite H in Htr. exists evs. split; [exact Htr |].
    right. split; [discriminate | exact Hno].
  - assert (Hnr : forall stats,
               fst (import env clientId fuel options patterns w)
               <> Resolved stats) by (rewrite H; discriminate).
    destruct (import_unresolved_events _ _ _ _ Hnr) as (evs & Htr & Hno).
    rewrite H in Htr. exists evs. split; [exact Htr |].
    right. split; [discriminate | exact Hno].
Qed.

(** X10 -- no submission past a failure.  In any run the submissions sent
    are an initial segment of the admitted files, in order; when some
    admitted file was not submitted the run did not resolve. *)
Theorem import_submits_prefix :
  forall (fuel : nat) (options : Options) (patterns : option (list string))
         (w : World),
    let out := fst (import env clientId fuel options patterns w) in
    let w' := snd (import env clientId fuel options patterns w) in
    exists sent rest,
      admitted env patterns = sent ++ rest
      /\ submitted (trace w') = submitted (trace w) ++ sent
      /\ (rest <> [] -> forall stats, out <> Resolved stats).
Proof.
  intros fuel options patterns w out w'. subst out w'.
  destruct (import env clientId fuel options patterns w) as [out w'] eqn:H.
  simpl.
  destruct (import_run env clientId _ _ _ _ _ _ H)
    as (sent & rest & Hsplit & Hsent & Hres).
  exists sent, rest. split; [exact Hsplit |]. split; [exact Hsent |].
  intros Hrest stats Hout. destruct (Hres stats Hout) as (E & _ & _).
  apply Hrest. rewrite E in Hsplit.
  apply (f_equal (@List.length string)) in Hsplit.
  rewrite length_app in Hsplit.
  destruct rest; [reflexivity | simpl in Hsplit; lia].
Qed.

(** ** The polling loop without an end, and with a failing call *)

Lemma callApi_err r w token e :
  tokenPromise w = Some (Ok token) ->
  rp env (requests w) r = Err e ->
  callApi env r w = (Rejected e, advanced w [EvRequest r]).
Proof.
  intros Htok Hrp. unfold callApi, advanced. rewrite Htok, Hrp. simpl.
  rewrite Nat.add_1_r. reflexivity.
Qed.

Lemma callApi_ok_advanced r w token body :
  tokenPromise w = Some (Ok token) ->
  rp env (requests w) r = Ok body ->
  callApi env r w = (Resolved body, advanced w [EvRequest r]).
Proof.
  intros Htok Hrp. unfold callApi, advanced. rewrite Htok, Hrp. simpl.
  rewrite Nat.add_1_r. reflexivity.
Qed.

Lemma emit_wait_advanced w :
  emit (EvWait WAIT_INTERVAL) w = (Resolved tt, advanced w [EvWait WAIT_INTERVAL]).
Proof. unfold emit, advanced. simpl. rewrite Nat.add_0_r. reflexivity. Qed.

Lemma repoll_step fuel name stats result w token next :
  tokenPromise w = Some (Ok token) -> pending result ->
  rp env (requests w) (GET_job (job_id result)) = Ok next ->
  waitAndCheck env (S fuel) name stats result w
    = waitAndCheck env fuel name stats next (advanced w (repoll result)).
Proof.
  intros Htok Hp Hnext.
  rewrite waitAndCheck_pending by assumption.
  rewrite (bind_step _ _ _ _ _ (emit_wait_advanced w)).
  assert (Htok0 : tokenPromise (advanced w [EvWait WAIT_INTERVAL])
                  = Some (Ok token)) by exact Htok.
  assert (Hnext0 : rp env (requests (advanced w [EvWait WAIT_INTERVAL]))
                      (GET_job (job_id result)) = Ok next).
  { simpl. rewrite Nat.add_0_r. exact Hnext. }
  rewrite (bind_step _ _ _ _ _
             (callApi_ok_advanced (GET_job (job_id result)) _ token next
                Htok0 Hnext0)).
  rewrite advanced_advanced. reflexivity.
Qed.

Lemma requests_repoll w p :
  requests (advanced w (repoll p)) = S (requests w).
Proof. simpl. apply Nat.add_1_r. Qed.

(** X11 -- the polling loop has no timeout.  On a service where every job
    stays 'pending', the loop entered with a pending descriptor never
    settles: whatever the number of rounds allowed, it uses them all, each
    with one delay and one re-fetch, and neither fetches the error listing
    nor records an entry. *)
Theorem waitAndCheck_never_gives_up :
  forall (fuel : nat) (name : string) (stats : RunStats) (result : Job)
         (w : World) (token : string),
    tokenPromise w = Some (Ok token) ->
    stuck env ->
    pending result ->
    exists polled,
      List.length polled = fuel
      /\ Forall pending polled
      /\ waitAndCheck env fuel name stats result w
         = (OutOfFuel, advanced w (flat_map repoll polled)).
Proof.
  induction fuel as [| fuel IH]; intros name stats result w token Htok Hstuck Hp.
  - exists []. split; [reflexivity |]. split; [constructor |].
    rewrite waitAndCheck_exhausted by assumption.
    simpl. rewrite advanced_nil. reflexivity.
  - destruct (Hstuck (requests w) (job_id result)) as (next & Hnext & Hpn).
    rewrite (repoll_step _ _ _ _ _ _ _ Htok Hp Hnext).
    destruct (IH name stats next (advanced w (repoll result)) token Htok
                Hstuck Hpn)
      as (polled & Hlen & Hall & Hrun).
    exists (result :: polled).
    split; [simpl; rewrite Hlen; reflexivity |].
    split; [constructor; assumption |].
    rewrite Hrun, advanced_advanced. reflexivity.
Qed.

(** X12 -- a failing re-fetch is not retried.  When the descriptors
    [pend ++ [last]] are all 'pending', each re-fetch answers the next one
    and the re-fetch after [last] fails, the loop rejects with that error
    after exactly one delay and one re-fetch per descriptor; no error
    listing is fetched. *)
Theorem waitAndCheck_poll_failure :
  forall (pend : list Job) (last : Job) (fuel : nat) (name : string)
         (stats : RunStats) (w : World) (token : string) (e : Error),
    tokenPromise w = Some (Ok token) ->
    Forall pending (pend ++ [last]) ->
    answers env (requests w) (hd last pend) (tl (pend ++ [last])) ->
    rp env (requests w + List.length pend) (GET_job (job_id last)) = Err e ->
    (List.length pend < fuel)%nat ->
    waitAndCheck env fuel name stats (hd last pend) w
      = (Rejected e, advanced w (flat_map repoll (pend ++ [last]))).
Proof.
  induction pend as [| p pend IH];
    intros last fuel name stats w token e Htok Hall Hans Herr Hfuel.
  - simpl in *. rewrite Nat.add_0_r in Herr.
    inversion Hall as [| ? ? Hp _]; subst.
    destruct fuel as [| fuel]; [lia |].
    rewrite waitAndCheck_pending by assumption.
    rewrite (bind_step _ _ _ _ _ (emit_wait_advanced w)).
    assert (Herr0 : rp env (requests (advanced w [EvWait WAIT_INTERVAL]))
                       (GET_job (job_id last)) = Err e).
    { simpl. rewrite Nat.add_0_r. exact Herr. }
    unfold bind.
    rewrite (callApi_err (GET_job (job_id last))
               (advanced w [EvWait WAIT_INTERVAL]) token e Htok Herr0).
    rewrite advanced_advanced. reflexivity.
  - inversion Hall as [| ? ? Hp Hrest]; subst.
    destruct fuel as [| fuel]; [simpl in Hfuel; lia |].
    simpl in Hfuel. apply PeanoNat.lt_S_n in Hfuel.
    change (hd last (p :: pend)) with p in *.
    change (tl ((p :: pend) ++ [last])) with (pend ++ [last]) in Hans.
    rewrite answers_head in Hans. destruct Hans as [Hnext Hans].
    rewrite (repoll_step _ _ _ _ _ _ _ Htok Hp Hnext).
    rewrite (IH last fuel name stats (advanced w (repoll p)) token e);
      try assumption.
    + rewrite advanced_advanced. reflexivity.
    + rewrite requests_repoll. exact Hans.
    + rewrite requests_repoll. simpl in Herr.
      rewrite Nat.add_succ_r in Herr. exact Herr.
Qed.

(** X13 -- a failing fetch of the error listing.  When the job has reached
    a terminal status but the fetch of its error listing fails, the loop
    rejects with that error after that single fetch, and no entry is
    recorded for the file. *)
Theorem waitAndCheck_errors_failure :
  forall (pend : list Job) (final : Job) (fuel : nat) (name : string)
         (stats : RunStats) (w : World) (token : string) (e : Error),
    tokenPromise w = Some (Ok token) ->
    Forall pending pend ->
    ~ pending final ->
    answers env (requests w) (hd final pend) (tl (pend ++ [final])) ->
    rp env (requests w + List.length pend) (GET_job_errors (job_id final))
      = Err e ->
    (List.length pend <= fuel)%nat ->
    waitAndCheck env fuel name stats (hd final pend) w
      = (Rejected e,
         advanced w (flat_map repoll pend
                     ++ [EvRequest (GET_job_errors (job_id final))])).
Proof.
  induction pend as [| p pend IH];
    intros final fuel name stats w token e Htok Hall Hfinal Hans Herr Hfuel.
  - simpl in *. rewrite Nat.add_0_r in Herr.
    rewrite waitAndCheck_terminal by assumption.
    unfold bind.
    rewrite (callApi_err (GET_job_errors (job_id final)) _ token e Htok Herr).
    reflexivity.
  - inversion Hall as [| ? ? Hp Hrest]; subst.
    destruct fuel as [| fuel]; [simpl in Hfuel; lia |].
    simpl in Hfuel. apply le_S_n in Hfuel.
    change (hd final (p :: pend)) with p in *.
    change (tl ((p :: pend) ++ [final])) with (pend ++ [final]) in Hans.
    rewrite answers_head in Hans. destruct Hans as [Hnext Hans].
    rewrite (repoll_step _ _ _ _ _ _ _ Htok Hp Hnext).
    rewrite (IH final fuel name stats (advanced w (repoll p)) token e);
      try assumption.
    + rewrite advanced_advanced. reflexivity.
    + rewrite requests_repoll. exact Hans.
    + rewrite requests_repoll. simpl in Herr.
      rewrite Nat.add_succ_r in Herr. exact Herr.
Qed.

(** ** The renewal timer left to itself *)

(** X14 -- renewal goes on for as long as tokens are granted.  On a token
    endpoint that always grants, a scheduled renewal timer that is never
    cleared re-arms itself each time it fires: after [n] firings [n] more
    tokens have been requested and a timer is scheduled again. *)
Theorem renewal_never_stops :
  forall (n : nat) (w : World),
    (forall k, exists response, clientCredentialsGrant env k = Ok response) ->
    tokenTimeout w <> None ->
    grants (fireRepeatedly env n w) = (grants w + n)%nat
    /\ tokenTimeout (fireRepeatedly env n w) <> None
    /\ List.length (filter (fun e => match e with EvGrant => true | _ => false end)
                      (trace (fireRepeatedly env n w)))
       = (List.length (filter (fun e => match e with EvGrant => true | _ => false end)
                         (trace w)) + n)%nat.
Proof.
  induction n as [| n IH]; intros w Hgrant Htimer; simpl.
  - rewrite !Nat.add_0_r. repeat split. exact Htimer.
  - assert (Hfire : grants (fireTokenTimeout env w) = S (grants w)
                    /\ tokenTimeout (fireTokenTimeout env w) <> None
                    /\ trace (fireTokenTimeout env w)
                       = trace w ++ [EvGrant]
                         ++ match tokenTimeout (fireTokenTimeout env w) with
                            | Some d => [EvSetTimeout d]
                            | None => []
                            end).
    { unfold fireTokenTimeout, getManagementToken.
      destruct (tokenTimeout w) as [d |]; [| contradiction]. simpl.
      destruct (Hgrant (grants w)) as [response ->]. simpl.
      rewrite <- app_assoc. repeat split. discriminate. }
    destruct Hfire as (Hg & Ht & Htr).
    destruct (IH (fireTokenTimeout env w) Hgrant Ht) as (IHg & IHt & IHc).
    rewrite IHg, IHc, Hg, Htr.
    split; [lia |]. split; [exact IHt |].
    rewrite !filter_app, !length_app. simpl.
    destruct (tokenTimeout (fireTokenTimeout env w)); simpl; lia.
Qed.

(** X15 -- a failed renewal ends the credential.  When the timer fires and
    the token request fails, no timer is set again, further firings do
    nothing, and every later call through the gateway is rejected with the
    error of that request without being sent. *)
Theorem renewal_failure_is_final :
  forall (w : World) (delay : Z) (e : Error),
    tokenTimeout w = Some delay ->
    clientCredentialsGrant env (grants w) = Err e ->
    let w1 := fireTokenTimeout env w in
    tokenPromise w1 = Some (Err e)
    /\ tokenTimeout w1 = None
    /\ trace w1 = trace w ++ [EvGrant]
    /\ (forall n, fireRepeatedly env n w1 = w1)
    /\ (forall r, callApi env r w1 = (Rejected e, w1)).
Proof.
  intros w delay e Htimer Hgrant w1. subst w1.
  unfold fireTokenTimeout, getManagementToken. rewrite Htimer. simpl.
  rewrite Hgrant. simpl.
  repeat split.
  induction n as [| n IH]; simpl; [reflexivity | exact IH].
Qed.

End Runs.

(** * The command-line front end *)

Lemma falsy_false (v : option string) :
  Cli.falsy v = false <-> exists s, v = Some s /\ s <> EmptyString.
Proof.
  destruct v as [s |]; simpl.
  - destruct (String.eqb_spec s EmptyString) as [-> | Hne].
    + split; [discriminate |]. intros (s & Hs & Hne). inversion Hs; subst.
      contradiction.
    + split; [| reflexivity]. intros _. exists s. split; [reflexivity | exact Hne].
  - split; [discriminate |]. intros (s & Hs & _). discriminate.
Qed.

(** X16 -- how the front end stops or goes on.  An unreadable
    configuration file exits with code -1 and what was thrown.  Otherwise
    the checks run in a fixed order on the assembled configuration and the
    first that fails decides the exit: 2 without files, 3 without domain,
    4 without client id, 5 without client secret, 6 without connection
    name.  The importer is reached only with at least one file argument
    and all four settings present and non-empty. *)
Theorem configure_exit_codes :
  forall (readFile : string -> Result Cli.Config) (envSecret : option string)
         (program : Cli.Program),
    match Cli.configure readFile envSecret program with
    | inl exit =>
        match Cli.readConfigFile readFile (Cli.configFile program) with
        | Err e => exit = Cli.mkExit (-1) (Cli.Thrown e)
        | Ok file =>
            let config := Cli.withSecret envSecret (Cli.assign file program) in
            (exit = Cli.mkExit 2 Cli.MissingFiles /\ Cli.args program = [])
            \/ (Cli.args program <> []
                /\ ((exit = Cli.mkExit 3 Cli.MissingDomain
                     /\ Cli.falsy (Cli.auth0domain config) = true)
                    \/ (Cli.falsy (Cli.auth0domain config) = false
                        /\ ((exit = Cli.mkExit 4 Cli.MissingClientId
                             /\ Cli.falsy (Cli.clientId config) = true)
                            \/ (Cli.falsy (Cli.clientId config) = false
                                /\ ((exit = Cli.mkExit 5 Cli.MissingClientSecret
                                     /\ Cli.falsy (Cli.clientSecret config) = true)
                                    \/ (Cli.falsy (Cli.clientSecret config) = false
                                        /\ exit = Cli.mkExit 6 Cli.MissingConnectionName
                                        /\ Cli.falsy (Cli.connectionName config)
                                           = true)))))))
        end
    | inr config =>
        Cli.args program <> []
        /\ (exists domain, Cli.auth0domain config = Some domain
                           /\ domain <> EmptyString)
        /\ (exists id, Cli.clientId config = Some id /\ id <> EmptyString)
        /\ (exists secret, Cli.clientSecret config = Some secret
                           /\ secret <> EmptyString)
        /\ (exists name, Cli.connectionName config = Some name
                         /\ name <> EmptyString)
    end.
Proof.
  intros readFile envSecret program. unfold Cli.configure.
  destruct (Cli.readConfigFile readFile (Cli.configFile program)) as [file | e];
    [| reflexivity].
  cbv zeta. set (config := Cli.withSecret envSecret (Cli.assign file program)).
  unfold Cli.validateConfig.
  destruct (Cli.args program) as [| a rest] eqn:Hargs.
  { left. split; reflexivity. }
  assert (Hne : a :: rest <> []) by discriminate.
  destruct (Cli.falsy (Cli.auth0domain config)) eqn:Hd.
  { right. split; [exact Hne |]. left. split; reflexivity. }
  destruct (Cli.falsy (Cli.clientId config)) eqn:Hi.
  { right. split; [exact Hne |]. right. split; [reflexivity |].
    left. split; reflexivity. }
  destruct (Cli.falsy (Cli.clientSecret config)) eqn:Hs.
  { right. split; [exact Hne |]. right. split; [reflexivity |].
    right. split; [reflexivity |]. left. split; reflexivity. }
  destruct (Cli.falsy (Cli.connectionName config)) eqn:Hn.
  { right. split; [exact Hne |]. right. split; [reflexivity |].
    right. split; [reflexivity |]. right. repeat split. }
  split; [exact Hne |].
  repeat split; apply falsy_false; assumption.
Qed.

(** X17 -- the command line overrides the configuration file.  In a
    configuration that reaches the importer, the domain, the client id,
    the connection name and the upsert flag are those of the command line
    when given there, else those of the file; the email flag comes from
    the file alone; the patterns are the file arguments of the command
    line. *)
Theorem configure_command_line_first :
  forall (readFile : string -> Result Cli.Config) (envSecret : option string)
         (program : Cli.Program) (config : Cli.Config),
    Cli.configure readFile envSecret program = inr config ->
    exists file,
      Cli.readConfigFile readFile (Cli.configFile program) = Ok file
      /\ (forall v, Cli.given_auth0domain program = Some v ->
                    Cli.auth0domain config = Some v)
      /\ (forall v, Cli.given_clientId program = Some v ->
                    Cli.clientId config = Some v)
      /\ (forall v, Cli.given_connectionName program = Some v ->
                    Cli.connectionName config = Some v)
      /\ (forall v, Cli.given_upsert program = Some v ->
                    Cli.upsert config = Some v)
      /\ (Cli.given_auth0domain program = None ->
          Cli.auth0domain config = Cli.auth0domain file)
      /\ (Cli.given_clientId program = None ->
          Cli.clientId config = Cli.clientId file)
      /\ (Cli.given_connectionName program = None ->
          Cli.connectionName config = Cli.connectionName file)
      /\ (Cli.given_upsert program = None ->
          Cli.upsert config = Cli.upsert file)
      /\ Cli.email config = Cli.email file
      /\ Cli.importOptions config
         = mkOptions (Cli.connectionName config) (Cli.upsert config)
                     (Cli.email file)
      /\ Cli.importPatterns program = Some (Cli.args program).
Proof.
  intros readFile envSecret program config H. unfold Cli.configure in H.
  destruct (Cli.readConfigFile readFile (Cli.configFile program)) as [file | e];
    [| discriminate].
  cbv zeta in H.
  destruct (Cli.validateConfig program
              (Cli.withSecret envSecret (Cli.assign file program)));
    [discriminate |].
  injection H as <-. exists file. split; [reflexivity |].
  unfold Cli.withSecret, Cli.assign, Cli.assigned, Cli.importOptions. simpl.
  repeat split; try (intros v ->; reflexivity); try (intros ->; reflexivity).
Qed.

(** X18 -- the environment overrides every other client secret.  With a
    non-empty AUTH0_CLIENT_SECRET the front end never stops for a missing
    client secret, and the importer is built with the secret of the
    environment, whatever the file and the command line say; without it,
    the secret of the command line is used when given, else that of the
    file. *)
Theorem configure_secret_from_environment :
  forall (readFile : string -> Result Cli.Config) (envSecret : option string)
         (program : Cli.Program),
    (forall secret, envSecret = Some secret -> secret <> EmptyString ->
       (forall exit, Cli.configure readFile envSecret program = inl exit ->
                     Cli.code exit <> 5)
       /\ (forall config, Cli.configure readFile envSecret program = inr config ->
                          Cli.clientSecret config = Some secret))
    /\ (Cli.falsy envSecret = true ->
        forall config file,
          Cli.configure readFile envSecret program = inr config ->
          Cli.readConfigFile readFile (Cli.configFile program) = Ok file ->
          Cli.clientSecret config
          = match Cli.given_clientSecret program with
            | Some v => Some v
            | None => Cli.clientSecret file
            end).
Proof.
  intros readFile envSecret program. split.
  - intros secret -> Hne.
    assert (Hf : Cli.falsy (Some secret) = false).
    { apply falsy_false. exists secret. split; [reflexivity | exact Hne]. }
    unfold Cli.configure.
    destruct (Cli.readConfigFile readFile (Cli.configFile program))
      as [file | e].
    + cbv zeta. unfold Cli.validateConfig, Cli.withSecret. rewrite Hf.
      cbn [Cli.auth0domain Cli.clientId Cli.clientSecret Cli.connectionName].
      rewrite Hf.
      destruct (Cli.args program);
        [split; [intros exit H; inversion H; discriminate | discriminate] |].
      destruct (Cli.falsy (Cli.auth0domain (Cli.assign file program)));
        [split; [intros exit H; inversion H; discriminate | discriminate] |].
      destruct (Cli.falsy (Cli.clientId (Cli.assign file program)));
        [split; [intros exit H; inversion H; discriminate | discriminate] |].
      destruct (Cli.falsy (Cli.connectionName (Cli.assign file program)));
        [split; [intros exit H; inversion H; discriminate | discriminate] |].
      split; [discriminate |]. intros config H. inversion H. reflexivity.
    + split; [intros exit H; inversion H; discriminate | discriminate].
  - intros Hf config file H Hfile. unfold Cli.configure in H.
    rewrite Hfile in H. cbv zeta in H.
    destruct (Cli.validateConfig program
                (Cli.withSecret envSecret (Cli.assign file program)));
      [discriminate |].
    injection H as <-. unfold Cli.withSecret. rewrite Hf. reflexivity.
Qed.

(** ** The figures of [displayResults] *)

Section Display.

Variable summary : Job -> Cli.Summary.

Lemma fold_left_sum {A} (g : A -> Z) (l : list A) :
  forall a, fold_left (fun sum f => g f + sum) l a
            = a + fold_left (fun sum f => g f + sum) l 0.
Proof.
  induction l as [| x l IH]; intros a; simpl; [lia |].
  rewrite (IH (g x + a)), (IH (g x + 0)). lia.
Qed.

(** X19 -- the totals printed add up.  The total number of users is the
    sum of the users inserted, updated and failed, and the files with and
    without errors together are all the files of the run. *)
Theorem displayResults_totals :
  forall results : RunStats,
    Cli.totalUsers summary results
    = Cli.usersInserted summary results + Cli.usersUpdated summary results
      + Cli.usersFailed summary results
    /\ Cli.filesWithoutErrors summary results + Cli.filesWithErrors summary results
       = Z.of_nat (List.length (files results))
    /\ 0 <= Cli.filesWithoutErrors summary results.
Proof.
  intros results.
  unfold Cli.totalUsers, Cli.usersInserted, Cli.usersUpdated, Cli.usersFailed,
    Cli.filesWithoutErrors, Cli.filesWithErrors, Cli.failedFiles.
  split; [| split].
  - induction (files results) as [| f l IH]; simpl; [reflexivity |].
    rewrite (fold_left_sum (fun f => Cli.inserted (summary (fr_result f))
                                     + Cli.updated (summary (fr_result f))
                                     + Cli.failed (summary (fr_result f)))),
            (fold_left_sum (fun f => Cli.inserted (summary (fr_result f)))),
            (fold_left_sum (fun f => Cli.updated (summary (fr_result f)))),
            (fold_left_sum (fun f => Cli.failed (summary (fr_result f)))).
    rewrite IH. lia.
  - lia.
  - pose proof (filter_length_le
                  (fun f => Cli.failed (summary (fr_result f)) >? 0)
                  (files results)).
    lia.
Qed.

(** X20 -- failed users and failed files agree.  When no summary reports
    a negative number of failures, the run lists no file with errors
    exactly when it reports zero failed users; and a file is listed
    exactly when its own summary reports a failure, whatever its error
    listing holds. *)
Theorem displayResults_failures :
  forall results : RunStats,
    (forall f, In f (files results) ->
               0 <= Cli.failed (summary (fr_result f))) ->
    (Cli.filesWithErrors summary results = 0
     <-> Cli.usersFailed summary results = 0)
    /\ (forall f, In f (Cli.failedFiles summary results)
                  <-> In f (files results)
                      /\ Cli.failed (summary (fr_result f)) > 0).
Proof.
  intros results Hnonneg. split.
  - unfold Cli.filesWithErrors, Cli.usersFailed, Cli.failedFiles.
    induction (files results) as [| f l IH]; simpl; [split; reflexivity |].
    assert (Hf : 0 <= Cli.failed (summary (fr_result f)))
      by (apply Hnonneg; left; reflexivity).
    assert (Hl : forall g, In g l -> 0 <= Cli.failed (summary (fr_result g)))
      by (intros g Hg; apply Hnonneg; right; exact Hg).
    specialize (IH Hl).
    assert (Hsum : 0 <= fold_left
                          (fun sum g => Cli.failed (summary (fr_result g)) + sum)
                          l 0).
    { clear IH. induction l as [| g l IHl]; simpl; [lia |].
      rewrite fold_left_sum.
      assert (0 <= Cli.failed (summary (fr_result g)))
        by (apply Hl; left; reflexivity).
      assert (0 <= fold_left
                     (fun sum g => Cli.failed (summary (fr_result g)) + sum) l 0).
      { apply IHl.
        - intros h [-> | Hh]; apply Hnonneg; [left; reflexivity |].
          right. right. exact Hh.
        - intros h Hh. apply Hl. right. exact Hh. }
      lia. }
    rewrite (fold_left_sum (fun g => Cli.failed (summary (fr_result g)))).
    destruct (Z.gtb_spec (Cli.failed (summary (fr_result f))) 0) as [Hpos | Hzero].
    + simpl. split; intros H; lia.
    + rewrite IH. split; intros H; lia.
  - intros f. unfold Cli.failedFiles. rewrite filter_In.
    split; intros [Hin Hpos]; (split; [exact Hin |]).
    + destruct (Z.gtb_spec (Cli.failed (summary (fr_result f))) 0);
        [lia | discriminate].
    + destruct (Z.gtb_spec (Cli.failed (summary (fr_result f))) 0);
        [reflexivity | lia].
Qed.

End Display.

(** * The further theorems at concrete inputs *)

Lemma Demo_clock : monotone_clock Demo.env.
Proof. intros m n Hle. simpl. lia. Qed.

Lemma Demo_grants :
  forall k, exists response, clientCredentialsGrant Demo.env k = Ok response.
Proof. intros k. eexists. reflexivity. Qed.

Lemma Cases_stuck : stuck Cases.env_stuck.
Proof.
  intros n id. exists (mkJob id "pending" ""). split; reflexivity.
Qed.



Lemma import_times_ordered_witness :
  exists t, endTime Demo.run_stats = Some t /\ startTime Demo.run_stats <= t.
Proof.
  exact (import_times_ordered Demo.env Demo.clientId 2 Demo.options
           Demo.patterns initial Demo.run_stats Demo.run_world
           Demo_clock Demo_run).
Defined.

Lemma import_glob_failure_witness :
  exists e evs w',
    import Cases.env_local Demo.clientId 2 Demo.options
           (Some ["a*.json"; "bad["; "*.json"]) initial
    = (Rejected e, w')
    /\ (exists failing,
          In failing ["a*.json"; "bad["; "*.json"]
          /\ Cases.glob failing = Err e)
    /\ trace w' = trace initial ++ EvGrant :: evs
    /\ pipeline evs = [EvGlob "a*.json"; EvGlob "bad["; EvGlob "*.json"]
    /\ requests w' = requests initial.
Proof.
  refine (import_glob_failure Cases.env_local Demo.clientId 2 Demo.options
            "Users" (Some ["a*.json"; "bad["; "*.json"]) initial
            "bad[" (External "glob") eq_refl _ _ eq_refl).
  - discriminate.
  - simpl. auto.
Defined.

Lemma import_stat_failure_witness :
  exists evs w',
    import Cases.env_local Demo.clientId 2 Demo.options (Some ["g*"]) initial
    = (Rejected (External "ENOENT"), w')
    /\ trace w' = trace initial ++ EvGrant :: evs
    /\ pipeline evs = [EvGlob "g*"; EvStat "a.json"; EvStat "gone.json"]
    /\ requests w' = requests initial.
Proof.
  refine (import_stat_failure Cases.env_local Demo.clientId 2 Demo.options
            "Users" (Some ["g*"]) initial (External "ENOENT")
            eq_refl _ eq_refl eq_refl).
  discriminate.
Defined.

Lemma import_token_failure_witness :
  import Cases.env_denied Demo.clientId 2 Demo.options (Some ["a*.json"])
         initial
  = (Rejected (External "access_denied"),
     mkWorld (Some (Err (External "access_denied"))) None 1 0
             [EvGrant; EvGlob "a*.json"; EvStat "a.json"]).
Proof.
  refine (import_token_failure Cases.env_denied Demo.clientId 2 Demo.options
            "Users" (Some ["a*.json"]) initial (External "access_denied")
            eq_refl _ eq_refl eq_refl eq_refl).
  discriminate.
Defined.

Lemma import_events_witness :
  exists evs seen listing jobs clear,
    trace (snd (import Demo.env Demo.clientId 2 Demo.options Demo.patterns
                       initial))
    = trace initial ++ EvGrant :: evs
    /\ pipeline evs = map EvGlob (or_empty Demo.patterns) ++ map EvStat seen
                      ++ listing ++ jobs ++ clear
    /\ (exists later,
          expansion Demo.env (or_empty Demo.patterns) = seen ++ later)
    /\ (listing = [] /\ jobs = []
        \/ listing = [EvRequest (GET_connections "Users")])
    /\ Forall (fun e => is_job_event e = true) jobs
    /\ (clear = []
        \/ clear = [EvClearTimeout]
           /\ exists stats,
                fst (import Demo.env Demo.clientId 2 Demo.options Demo.patterns
                            initial) = Resolved stats).
Proof.
  refine (import_events Demo.env Demo.clientId 2 Demo.options "Users"
            Demo.patterns initial eq_refl _).
  discriminate.
Defined.

Lemma waitAndCheck_never_gives_up_witness :
  exists polled,
    List.length polled = 3%nat
    /\ Forall pending polled
    /\ waitAndCheck Cases.env_stuck 3 "a.json" Demo.stats0 Demo.waiting
                    Demo.polling
       = (OutOfFuel, advanced Demo.polling (flat_map repoll polled)).
Proof.
  exact (waitAndCheck_never_gives_up Cases.env_stuck 3 "a.json" Demo.stats0
           Demo.waiting Demo.polling "tok" eq_refl Cases_stuck eq_refl).
Defined.

Lemma waitAndCheck_poll_failure_witness :
  waitAndCheck Cases.env_down 2 "a.json" Demo.stats0 Demo.waiting Demo.polling
  = (Rejected (External "ECONNRESET"),
     advanced Demo.polling
              [EvWait 5000; EvRequest (GET_job "job:a.json")]).
Proof.
  refine (waitAndCheck_poll_failure Cases.env_down [] Demo.waiting 2 "a.json"
            Demo.stats0 Demo.polling "tok" (External "ECONNRESET")
            eq_refl _ I eq_refl _).
  - repeat constructor.
  - simpl. lia.
Defined.

Lemma waitAndCheck_errors_failure_witness :
  waitAndCheck Cases.env_down 0 "a.json" Demo.stats0 Demo.done Demo.polling
  = (Rejected (External "ECONNRESET"),
     advanced Demo.polling [EvRequest (GET_job_errors "job:a.json")]).
Proof.
  refine (waitAndCheck_errors_failure Cases.env_down [] Demo.done 0 "a.json"
            Demo.stats0 Demo.polling "tok" (External "ECONNRESET")
            eq_refl _ _ I eq_refl _).
  - constructor.
  - discriminate.
  - simpl. lia.
Defined.

Lemma renewal_never_stops_witness :
  grants (fireRepeatedly Demo.env 3 Demo.polling) = 4%nat
  /\ tokenTimeout (fireRepeatedly Demo.env 3 Demo.polling) <> None.
Proof.
  destruct (renewal_never_stops Demo.env 3 Demo.polling Demo_grants)
    as (Hgrants & Htimer & _).
  - discriminate.
  - split; [exact Hgrants | exact Htimer].
Defined.

Lemma renewal_failure_is_final_witness :
  tokenPromise (fireTokenTimeout Cases.env_denied Demo.polling)
    = Some (Err (External "access_denied"))
  /\ tokenTimeout (fireTokenTimeout Cases.env_denied Demo.polling) = None
  /\ trace (fireTokenTimeout Cases.env_denied Demo.polling)
     = trace Demo.polling ++ [EvGrant]
  /\ (forall n,
        fireRepeatedly Cases.env_denied n
          (fireTokenTimeout Cases.env_denied Demo.polling)
        = fireTokenTimeout Cases.env_denied Demo.polling)
  /\ (forall r,
        callApi Cases.env_denied r
          (fireTokenTimeout Cases.env_denied Demo.polling)
        = (Rejected (External "access_denied"),
           fireTokenTimeout Cases.env_denied Demo.polling)).
Proof.
  exact (renewal_failure_is_final Cases.env_denied Demo.polling 60000
           (External "access_denied") eq_refl eq_refl).
Defined.

Lemma configure_command_line_first_witness :
  Cli.connectionName Cases.config = Some "Staff"
  /\ Cli.clientId Cases.config = Some "client"
  /\ Cli.auth0domain Cases.config = Cli.auth0domain Cases.file
  /\ Cli.email Cases.config = Cli.email Cases.file.
Proof.
  destruct (configure_command_line_first Cases.readFile (Some "env-secret")
              Cases.program Cases.config eq_refl)
    as (file & Hfile & _ & Hid & Hname & _ & Hdomain & _ & _ & _ & Hemail & _).
  injection Hfile as <-.
  split; [exact (Hname "Staff" eq_refl) |].
  split; [exact (Hid "client" eq_refl) |].
  split; [exact (Hdomain eq_refl) | exact Hemail].
Defined.

Lemma displayResults_failures_witness :
  (Cli.filesWithErrors Cases.summary Demo.run_stats = 0
   <-> Cli.usersFailed Cases.summary Demo.run_stats = 0)
  /\ (forall f, In f (Cli.failedFiles Cases.summary Demo.run_stats)
                <-> In f (files Demo.run_stats)
                    /\ Cli.failed (Cases.summary (fr_result f)) > 0).
Proof.
  refine (displayResults_failures Cases.summary Demo.run_stats _).
  intros f _. unfold Cases.summary.
  destruct (String.eqb (job_id (fr_result f)) "job:b.json"); simpl; lia.
Defined.
